(** * AI Claims Orchestrator: the HTTP surface of [backend/main.py] and the
    schemas of [backend/models/schemas.py], embedded and verified.

    Conventions of the embedding.
    - A Python [str] is a [string] holding its UTF-8 encoding; [len] counts
      its characters (code points), which for ASCII text is the number of
      bytes.
    - A Python [float] is an IEEE 754 binary64 number: Rocq's primitive
      [float], compared with [PrimFloat.ltb] and [PrimFloat.leb].
    - A [datetime] is an instant on the integer line ([Z]).
    - [claims_db : Dict[str, Claim]] is a [gmap string Claim.t].  The handlers
      mutate the [Claim] object they fetched from the dictionary; while a
      handler runs without interruption its identifier denotes that object,
      so this is a functional update of the entry under that key ([alter]).
      Across the [await] of [analyze_claim] the identifier may be bound to
      another object: the transition system of the server keeps the objects
      apart from the dictionary.
    - A handler is a function from the world to a result (a value or a raised
      [HTTPException]) and the world it leaves behind: what a handler wrote
      before it raised stays written, as in Python. *)

From Stdlib Require Import Floats ZArith Ascii String.
From stdpp Require Import gmap strings list fin_maps.

Local Open Scope string_scope.
Local Open Scope Z_scope.

(** ** Python values shared by the schemas *)

(** [datetime]: only assignment and comparison of instants matter here. *)
Definition datetime : Type := Z.

(** [len(s)] on a [str]: the number of its characters (code points).  In the
    UTF-8 encoding each character is one byte that is not a continuation byte
    ([10xxxxxx], 128 to 191), followed by its continuation bytes. *)
Definition is_continuation (c : ascii) : bool :=
  let n := nat_of_ascii c in ((128 <=? n) && (n <=? 191))%nat.

Fixpoint len (s : string) : nat :=
  match s with
  | EmptyString => 0
  | String c rest => (if is_continuation c then 0 else 1) + len rest
  end%nat.

(** [typing.Any], as it occurs in [AgentResult.metadata]. *)
#[local] Unset Elimination Schemes.
Inductive PyAny : Type :=
| AnyNone
| AnyBool (b : bool)
| AnyInt (n : Z)
| AnyFloat (x : float)
| AnyStr (s : string)
| AnyList (items : list PyAny)
| AnyDict (entries : list (string * PyAny)).
#[local] Set Elimination Schemes.

(** ** pydantic field constraints

    [Field(gt=..., ge=..., le=...)] on a [float] and [Field(min_length=...)]
    on a [str].  A bound that is not given does not constrain.  The bounds are
    tested in pydantic's order ([le], then [ge], then [gt]) and the first one
    that does not hold is the reported error; a comparison with NaN never
    holds. *)
Module Field.

Record FloatBounds : Type := mkFloatBounds {
  gt : option float;
  ge : option float;
  le : option float
}.

Record StrBounds : Type := mkStrBounds {
  min_length : option nat
}.

(** [(loc, type)] of one line of a pydantic [ValidationError]. *)
Definition ErrorLine : Type := (string * string)%type.

Definition le_holds (bound : option float) (x : float) : bool :=
  match bound with
  | Some b => PrimFloat.leb x b
  | None => true
  end.

Definition ge_holds (bound : option float) (x : float) : bool :=
  match bound with
  | Some b => PrimFloat.leb b x
  | None => true
  end.

Definition gt_holds (bound : option float) (x : float) : bool :=
  match bound with
  | Some b => PrimFloat.ltb b x
  | None => true
  end.

Definition check_float (loc : string) (b : FloatBounds) (x : float)
  : list ErrorLine :=
  if negb (le_holds (le b) x) then [(loc, "less_than_equal")]
  else if negb (ge_holds (ge b) x) then [(loc, "greater_than_equal")]
  else if negb (gt_holds (gt b) x) then [(loc, "greater_than")]
  else [].

Definition check_str (loc : string) (b : StrBounds) (s : string)
  : list ErrorLine :=
  match min_length b with
  | Some n => if (n <=? len s)%nat then [] else [(loc, "string_too_short")]
  | None => []
  end.

End Field.

(** ** [models/schemas.py] *)

Module ClaimStatus.
Inductive t : Type :=
| SUBMITTED
| VALIDATING
| FRAUD_CHECK
| POLICY_CHECK
| DOCUMENT_ANALYSIS
| DECISION_PENDING
| APPROVED
| REJECTED
| NEEDS_INFO.

(** The [str] value of each member. *)
Definition value (s : t) : string :=
  match s with
  | SUBMITTED => "submitted"
  | VALIDATING => "validating"
  | FRAUD_CHECK => "fraud_check"
  | POLICY_CHECK => "policy_check"
  | DOCUMENT_ANALYSIS => "document_analysis"
  | DECISION_PENDING => "decision_pending"
  | APPROVED => "approved"
  | REJECTED => "rejected"
  | NEEDS_INFO => "needs_info"
  end.

#[global] Instance eq_dec : EqDecision t.
Proof. solve_decision. Defined.
End ClaimStatus.

Module ClaimType.
Inductive t : Type := HEALTH | AUTO | HOME | LIFE.

Definition value (c : t) : string :=
  match c with
  | HEALTH => "health"
  | AUTO => "auto"
  | HOME => "home"
  | LIFE => "life"
  end.
End ClaimType.

Module ClaimSubmission.
Record t : Type := mk {
  policy_number : string;
  claim_type : ClaimType.t;
  claim_amount : float;
  incident_date : string;
  description : string;
  claimant_name : string;
  claimant_email : string;
  documents : option (list string)
}.

(** [claim_amount: float = Field(..., gt=0)] *)
Definition claim_amount_field : Field.FloatBounds :=
  Field.mkFloatBounds (Some 0%float) None None.

(** [description: str = Field(..., min_length=20)] *)
Definition description_field : Field.StrBounds :=
  Field.mkStrBounds (Some 20%nat).

(** [ClaimSubmission(policy_number=..., ...)]: the fields are validated in
    declaration order and every failing field is reported.  [documents] may
    be left out ([None] here), in which case it is the default [[]]; it may
    also be passed as Python's [None] ([Some None] here). *)
Definition init (policy_number : string) (claim_type : ClaimType.t)
    (claim_amount : float) (incident_date description : string)
    (claimant_name claimant_email : string)
    (documents : option (option (list string)))
  : list Field.ErrorLine + t :=
  match (Field.check_float "claim_amount" claim_amount_field claim_amount ++
         Field.check_str "description" description_field description)%list with
  | [] => inr (mk policy_number claim_type claim_amount incident_date
                  description claimant_name claimant_email
                  (default (Some []) documents))
  | errors => inl errors
  end.
End ClaimSubmission.

Module AgentResult.
Record t : Type := mk {
  agent_name : string;
  status : string;
  confidence : float;
  findings : string;
  recommendations : option (list string);
  metadata : option (list (string * PyAny))
}.

(** [confidence: float = Field(ge=0.0, le=1.0)] *)
Definition confidence_field : Field.FloatBounds :=
  Field.mkFloatBounds None (Some 0%float) (Some 1%float).

(** [AgentResult(agent_name=..., ...)]; [recommendations] and [metadata]
    default to [[]] and [{}] when left out. *)
Definition init (agent_name status : string) (confidence : float)
    (findings : string)
    (recommendations : option (option (list string)))
    (metadata : option (option (list (string * PyAny))))
  : list Field.ErrorLine + t :=
  match Field.check_float "confidence" confidence_field confidence with
  | [] => inr (mk agent_name status confidence findings
                  (default (Some []) recommendations)
                  (default (Some []) metadata))
  | errors => inl errors
  end.
End AgentResult.

Module ClaimAnalysis.
Record t : Type := mk {
  claim_id : string;
  validation_result : option AgentResult.t;
  fraud_result : option AgentResult.t;
  policy_result : option AgentResult.t;
  document_result : option AgentResult.t;
  final_decision : option AgentResult.t;
  overall_status : ClaimStatus.t;
  processing_time : option float
}.
End ClaimAnalysis.

Module Claim.
Record t : Type := mk {
  claim_id : string;
  submission : ClaimSubmission.t;
  status : ClaimStatus.t;
  created_at : datetime;
  updated_at : datetime;
  analysis : option ClaimAnalysis.t
}.

(** Attribute assignment on a [Claim] object ([validate_assignment] is not
    switched on, so an assignment cannot fail). *)
Definition set_status (s : ClaimStatus.t) (c : t) : t :=
  mk (claim_id c) (submission c) s (created_at c) (updated_at c) (analysis c).

Definition set_updated_at (d : datetime) (c : t) : t :=
  mk (claim_id c) (submission c) (status c) (created_at c) d (analysis c).

Definition set_analysis (a : option ClaimAnalysis.t) (c : t) : t :=
  mk (claim_id c) (submission c) (status c) (created_at c) (updated_at c) a.
End Claim.

Module ClaimResponse.
Record t : Type := mk {
  claim_id : string;
  status : ClaimStatus.t;
  message : string;
  created_at : datetime
}.
End ClaimResponse.

Module ClaimStatusResponse.
Record t : Type := mk {
  claim_id : string;
  status : ClaimStatus.t;
  current_step : string;
  progress_percentage : Z;
  analysis : option ClaimAnalysis.t;
  updated_at : datetime
}.
End ClaimStatusResponse.

Module AnalysisTriggerResponse.
Record t : Type := mk {
  claim_id : string;
  message : string;
  status : string
}.
End AnalysisTriggerResponse.

(** ** [main.py] *)

Module HTTPException.
Record t : Type := mk {
  status_code : Z;
  detail : string
}.
End HTTPException.

(** What a call either returns or raises. *)
Inductive Result (A : Type) : Type :=
| Return (a : A)
| Raise (e : HTTPException.t).
Arguments Return {A} a.
Arguments Raise {A} e.

(** An exception escaping [orchestrator.process_claim]; [str e] is [str(e)]. *)
Inductive Exception : Type := Exc (str : string).
Definition str (e : Exception) : string := let 'Exc s := e in s.

(** One value of the dictionary returned by [get_analysis_results]. *)
Inductive ResultValue : Type :=
| RStr (s : string)
| RStatus (s : ClaimStatus.t)
| RSubmissionDump (s : ClaimSubmission.t)   (* [submission.model_dump()] *)
| RAnalysisDump (a : ClaimAnalysis.t)       (* [analysis.model_dump()] *)
| RIsoformat (d : datetime).                (* [d.isoformat()] *)

(** [dict.get(key, default)] on a dictionary literal (whose keys are
    distinct). *)
Fixpoint dict_get {K V : Type} `{EqDecision K}
    (d : list (K * V)) (key : K) (dflt : V) : V :=
  match d with
  | [] => dflt
  | (k, v) :: rest => if decide (k = key) then v else dict_get rest key dflt
  end.

(** [s.upper()] on the characters [uuid4().hex] is made of, and on every
    other ASCII letter. *)
Definition ascii_upper (c : ascii) : ascii :=
  let n := nat_of_ascii c in
  if ((97 <=? n) && (n <=? 122))%nat then ascii_of_nat (n - 32) else c.

Fixpoint upper (s : string) : string :=
  match s with
  | EmptyString => EmptyString
  | String c rest => String (ascii_upper c) (upper rest)
  end.

Section Main.

(** The environment of the server. *)

(** The wall clock: [clock n] is what the [n]-th call of [datetime.now()]
    since start-up returns.  Nothing is assumed of it. *)
Variable clock : nat -> datetime.

(** [orchestrator = ClaimsOrchestrator()]: the module [orchestrator] is not
    part of the sources at hand.  The object may carry state of its own
    ([Orch]); a call of [process_claim] returns a [ClaimAnalysis] or raises,
    and leaves the object in a new state.  It is handed the submission and
    the identifier, not the [Claim] object nor [claims_db], which belongs to
    [main.py]: it does not write to the dictionary. *)
Variable Orch : Type.
Variable process_claim :
  Orch -> ClaimSubmission.t -> string -> (Exception + ClaimAnalysis.t) * Orch.

(** How an f-string renders a member of the [str]-mixin enumeration
    [ClaimStatus]: its value up to Python 3.10, [ClaimStatus.NAME] from
    3.11 on. *)
Variable format_status : ClaimStatus.t -> string.

(** The mutable state of the process. *)
Record World : Type := mkWorld {
  claims_db : gmap string Claim.t;
  clock_reads : nat;
  orchestrator : Orch
}.

Definition Handler (A : Type) : Type := World -> Result A * World.

Definition set_claims_db (db : gmap string Claim.t) (w : World) : World :=
  mkWorld db (clock_reads w) (orchestrator w).

(** [datetime.now()] *)
Definition datetime_now (w : World) : datetime * World :=
  (clock (clock_reads w),
   mkWorld (claims_db w) (S (clock_reads w)) (orchestrator w)).

(** An assignment to an attribute of the object bound to [claim_id]. *)
Definition assign (claim_id : string) (f : Claim.t -> Claim.t) (w : World)
  : World :=
  set_claims_db (alter f claim_id (claims_db w)) w.

Definition not_found {A : Type} (claim_id : string) : Result A :=
  Raise (HTTPException.mk 404 ("Claim " +:+ claim_id +:+ " not found")).

(** *** [submit_claim]

    [uuid4_hex] is [uuid.uuid4().hex], drawn by the caller's environment;
    [submitted_id] is the identifier made of it.  The two timestamps are two
    readings of the clock. *)
Definition submitted_id (uuid4_hex : string) : string :=
  "CLM-" +:+ upper (substring 0 8 uuid4_hex).

Definition submit_claim (uuid4_hex : string) (claim : ClaimSubmission.t)
  : Handler ClaimResponse.t := fun w =>
  let claim_id := submitted_id uuid4_hex in
  let '(created, w) := datetime_now w in
  let '(updated, w) := datetime_now w in
  let new_claim :=
    Claim.mk claim_id claim ClaimStatus.SUBMITTED created updated None in
  let w := set_claims_db (<[claim_id := new_claim]> (claims_db w)) w in
  (Return (ClaimResponse.mk claim_id ClaimStatus.SUBMITTED
             ("Claim submitted successfully. Your claim ID is " +:+ claim_id)
             (Claim.created_at new_claim)),
   w).

(** *** [get_claim_status] *)
Definition status_progress : list (ClaimStatus.t * Z) :=
  [ (ClaimStatus.SUBMITTED, 10);
    (ClaimStatus.VALIDATING, 20);
    (ClaimStatus.FRAUD_CHECK, 40);
    (ClaimStatus.POLICY_CHECK, 60);
    (ClaimStatus.DOCUMENT_ANALYSIS, 80);
    (ClaimStatus.DECISION_PENDING, 90);
    (ClaimStatus.APPROVED, 100);
    (ClaimStatus.REJECTED, 100);
    (ClaimStatus.NEEDS_INFO, 50) ].

Definition current_step_map : list (ClaimStatus.t * string) :=
  [ (ClaimStatus.SUBMITTED, "Claim received and queued");
    (ClaimStatus.VALIDATING, "Validating claim information");
    (ClaimStatus.FRAUD_CHECK, "Analyzing for fraud indicators");
    (ClaimStatus.POLICY_CHECK, "Verifying policy coverage");
    (ClaimStatus.DOCUMENT_ANALYSIS, "Analyzing supporting documents");
    (ClaimStatus.DECISION_PENDING, "Making final decision");
    (ClaimStatus.APPROVED, "Claim approved");
    (ClaimStatus.REJECTED, "Claim rejected");
    (ClaimStatus.NEEDS_INFO, "Additional information required") ].

Definition get_claim_status (claim_id : string)
  : Handler ClaimStatusResponse.t := fun w =>
  match claims_db w !! claim_id with
  | None => (not_found claim_id, w)
  | Some claim =>
      (Return (ClaimStatusResponse.mk
                 claim_id
                 (Claim.status claim)
                 (dict_get current_step_map (Claim.status claim) "Processing")
                 (dict_get status_progress (Claim.status claim) 0)
                 (Claim.analysis claim)
                 (Claim.updated_at claim)),
       w)
  end.

(** *** [list_claims]

    One entry per value of the dictionary.  Python walks the values in
    insertion order; [map_to_list] fixes some order of its own, so the
    response is modelled up to the order of its entries. *)
Definition list_claims_entry (claim : Claim.t) : ClaimStatusResponse.t :=
  ClaimStatusResponse.mk
    (Claim.claim_id claim)
    (Claim.status claim)
    (if negb (bool_decide (Claim.status claim ∈
                 [ClaimStatus.APPROVED; ClaimStatus.REJECTED]))
     then "Processing" else "Complete")
    (if bool_decide (Claim.status claim ∈
                 [ClaimStatus.APPROVED; ClaimStatus.REJECTED])
     then 100 else 50)
    (Claim.analysis claim)
    (Claim.updated_at claim).

Definition list_claims : Handler (list ClaimStatusResponse.t) := fun w =>
  (Return (list_claims_entry <$> (map_to_list (claims_db w)).*2), w).

(** *** [analyze_claim]

    The coroutine has one suspension point, the [await] of
    [orchestrator.process_claim].  [analyze_claim_enter] is what runs from
    the arrival of the request up to that point: it either finishes the
    request ([inl]) or is about to await the pipeline on the submission it
    read ([inr]).  [analyze_claim_resume] is what runs once the awaited call
    has returned an analysis or raised. *)
Definition analyze_claim_enter (claim_id : string)
  : Handler (AnalysisTriggerResponse.t + ClaimSubmission.t) := fun w =>
  match claims_db w !! claim_id with
  | None => (not_found claim_id, w)
  | Some claim =>
      if negb (bool_decide (Claim.status claim ∈
                 [ClaimStatus.SUBMITTED; ClaimStatus.NEEDS_INFO]))
      then
        (Return (inl (AnalysisTriggerResponse.mk
                        claim_id
                        "Claim analysis already in progress or completed"
                        "skipped")),
         w)
      else
        let w := assign claim_id (Claim.set_status ClaimStatus.VALIDATING) w in
        let '(now, w) := datetime_now w in
        let w := assign claim_id (Claim.set_updated_at now) w in
        (Return (inr (Claim.submission claim)), w)
  end.

Definition analyze_claim_resume (claim_id : string)
    (outcome : Exception + ClaimAnalysis.t)
  : Handler AnalysisTriggerResponse.t := fun w =>
  match outcome with
  | inr analysis =>
      let w := assign claim_id (Claim.set_analysis (Some analysis)) w in
      let w := assign claim_id
                 (Claim.set_status (ClaimAnalysis.overall_status analysis)) w in
      let '(now, w) := datetime_now w in
      let w := assign claim_id (Claim.set_updated_at now) w in
      (Return (AnalysisTriggerResponse.mk
                 claim_id
                 ("Claim analysis completed. Status: " +:+
                    format_status (ClaimAnalysis.overall_status analysis))
                 "completed"),
       w)
  | inl e =>
      let w := assign claim_id (Claim.set_status ClaimStatus.SUBMITTED) w in
      let '(now, w) := datetime_now w in
      let w := assign claim_id (Claim.set_updated_at now) w in
      (Raise (HTTPException.mk 500 ("Analysis failed: " +:+ str e)), w)
  end.

(** [await orchestrator.process_claim(submission, claim_id)], run to its end
    with nothing else scheduled in between. *)
Definition await_process_claim (submission : ClaimSubmission.t)
    (claim_id : string) (w : World)
  : (Exception + ClaimAnalysis.t) * World :=
  let '(outcome, o) := process_claim (orchestrator w) submission claim_id in
  (outcome, mkWorld (claims_db w) (clock_reads w) o).

(** One request served from its arrival to its response. *)
Definition analyze_claim (claim_id : string)
  : Handler AnalysisTriggerResponse.t := fun w =>
  match analyze_claim_enter claim_id w with
  | (Raise e, w) => (Raise e, w)
  | (Return (inl response), w) => (Return response, w)
  | (Return (inr submission), w) =>
      let '(outcome, w) := await_process_claim submission claim_id w in
      analyze_claim_resume claim_id outcome w
  end.

(** *** [get_analysis_results] *)
Definition get_analysis_results (claim_id : string)
  : Handler (list (string * ResultValue)) := fun w =>
  match claims_db w !! claim_id with
  | None => (not_found claim_id, w)
  | Some claim =>
      match Claim.analysis claim with
      | None =>
          (Return [ ("claim_id", RStr claim_id);
                    ("status", RStatus (Claim.status claim));
                    ("message", RStr "Analysis not yet completed. Please trigger analysis first.") ],
           w)
      | Some analysis =>
          (Return [ ("claim_id", RStr claim_id);
                    ("status", RStatus (Claim.status claim));
                    ("submission", RSubmissionDump (Claim.submission claim));
                    ("analysis", RAnalysisDump analysis);
                    ("created_at", RIsoformat (Claim.created_at claim));
                    ("updated_at", RIsoformat (Claim.updated_at claim)) ],
           w)
      end
  end.

(** ** The server as a transition system

    FastAPI runs the [async def] handlers as coroutines of one event loop: a
    coroutine runs alone until it awaits, and the only [await] of this module
    is the one in [analyze_claim].

    [claims_db] maps identifiers to [Claim] objects, and a coroutine
    suspended at the [await] keeps, in its local variable [claim], the object
    it fetched before.  [submit_claim] stores its new object under the
    identifier it drew without looking whether the identifier is in use, so
    the object a coroutine holds need not be the one its identifier denotes
    when it resumes.  The state of the server therefore keeps the objects
    apart from the dictionary: a heap of [Claim] objects by address, the
    dictionary from identifiers to addresses, the clock and the orchestrator,
    and the suspended coroutines, each with the identifier it was called
    with and the address of the object it holds. *)
Record Task : Type := mkTask {
  task_claim_id : string;
  task_claim : nat
}.

Record Server : Type := mkServer {
  heap : gmap nat Claim.t;
  bindings : gmap string nat;
  reads : nat;
  engine : Orch;
  awaiting : list Task
}.

(** The world a handler sees when it starts to run: under each identifier,
    the object bound to it. *)
Definition world (s : Server) : World :=
  mkWorld (omap (fun a => heap s !! a) (bindings s)) (reads s) (engine s).

Inductive Event : Type :=
| SubmitClaim (uuid4_hex : string) (claim : ClaimSubmission.t)
| GetClaimStatus (claim_id : string)
| ListClaims
| AnalyzeClaim (claim_id : string)
| GetAnalysisResults (claim_id : string)
  (* the awaited pipeline of a suspended [analyze_claim] returns or raises,
     leaving the orchestrator in state [o] *)
| PipelineEnds (claim_id : string) (outcome : Exception + ClaimAnalysis.t)
               (o : Orch).

(** One coroutine running from its start, or from the [await], to its end or
    to the [await].

    - [step_submit]: [new_claim] is a new object, at an address [a] not in
      use; it is the record [submit_claim] leaves under the identifier, and
      the identifier is bound to it, whatever was bound there.
    - The three read handlers leave the world as it is.
    - [step_analyze_done]: the request is answered before any write.
    - [step_analyze_await]: [claim] is the object at the address [a] bound to
      the identifier; what the handler wrote up to the [await] is written to
      that object, and the coroutine is suspended holding [a].
    - [step_pipeline_ends]: a suspended coroutine resumes.  The statements
      after the [await] assign to the attributes of the object it holds, so
      [analyze_claim_resume] runs where the identifier denotes that object,
      [c]; what it leaves there, [c'], is written to the address [a].  The
      dictionary is not touched. *)
Inductive step : Server -> Event -> Server -> Prop :=
| step_submit s a hex claim r w' c :
    heap s !! a = None ->
    submit_claim hex claim (world s) = (r, w') ->
    claims_db w' !! submitted_id hex = Some c ->
    step s (SubmitClaim hex claim)
      (mkServer (<[a := c]> (heap s)) (<[submitted_id hex := a]> (bindings s))
         (clock_reads w') (orchestrator w') (awaiting s))
| step_status s cid r :
    get_claim_status cid (world s) = (r, world s) ->
    step s (GetClaimStatus cid) s
| step_list s r :
    list_claims (world s) = (r, world s) ->
    step s ListClaims s
| step_results s cid r :
    get_analysis_results cid (world s) = (r, world s) ->
    step s (GetAnalysisResults cid) s
| step_analyze_done s cid r :
    analyze_claim_enter cid (world s) = (r, world s) ->
    (forall submission, r <> Return (inr submission)) ->
    step s (AnalyzeClaim cid) s
| step_analyze_await s cid a submission w' c' :
    bindings s !! cid = Some a ->
    analyze_claim_enter cid (world s) = (Return (inr submission), w') ->
    claims_db w' !! cid = Some c' ->
    step s (AnalyzeClaim cid)
      (mkServer (<[a := c']> (heap s)) (bindings s)
         (clock_reads w') (orchestrator w') (mkTask cid a :: awaiting s))
| step_pipeline_ends s aw1 aw2 cid a c outcome o r w' c' :
    awaiting s = (aw1 ++ mkTask cid a :: aw2)%list ->
    heap s !! a = Some c ->
    analyze_claim_resume cid outcome (mkWorld {[ cid := c ]} (reads s) o)
    = (r, w') ->
    claims_db w' !! cid = Some c' ->
    step s (PipelineEnds cid outcome o)
      (mkServer (<[a := c']> (heap s)) (bindings s)
         (clock_reads w') (orchestrator w') (aw1 ++ aw2)%list).

(** The states the server can be in: it starts with an empty dictionary and
    no coroutine, and moves by [step]. *)
Inductive reachable : Server -> Prop :=
| reachable_start n o : reachable (mkServer ∅ ∅ n o [])
| reachable_step s ev s' : reachable s -> step s ev s' -> reachable s'.

(** The status the handler writes once the pipeline has ended. *)
Definition status_after (outcome : Exception + ClaimAnalysis.t) : ClaimStatus.t :=
  match outcome with
  | inr analysis => ClaimAnalysis.overall_status analysis
  | inl _ => ClaimStatus.SUBMITTED
  end.

End Main.

Arguments mkWorld {Orch} _ _ _.
Arguments claims_db {Orch} _.
Arguments clock_reads {Orch} _.
Arguments orchestrator {Orch} _.
Arguments mkServer {Orch} _ _ _ _ _.
Arguments heap {Orch} _.
Arguments bindings {Orch} _.
Arguments reads {Orch} _.
Arguments engine {Orch} _.
Arguments awaiting {Orch} _.
Arguments world {Orch} _.
Arguments set_claims_db {Orch} _ _.
Arguments datetime_now clock {Orch} _.
Arguments assign {Orch} _ _ _.
Arguments submit_claim clock {Orch} _ _ _.
Arguments get_claim_status {Orch} _ _.
Arguments list_claims {Orch} _.
Arguments get_analysis_results {Orch} _ _.
Arguments analyze_claim_enter clock {Orch} _ _.
Arguments analyze_claim_resume clock {Orch} format_status _ _ _.
Arguments await_process_claim {Orch} process_claim _ _ _.
Arguments analyze_claim clock {Orch} process_claim format_status _ _.
Arguments PipelineEnds {Orch} _ _ _.
Arguments SubmitClaim {Orch} _ _.
Arguments GetClaimStatus {Orch} _.
Arguments ListClaims {Orch}.
Arguments AnalyzeClaim {Orch} _.
Arguments GetAnalysisResults {Orch} _.
Arguments step clock {Orch} format_status _ _ _.
Arguments reachable clock {Orch} format_status _.

(** ** The status state machine of the specification *)

(** Modelled from the spec: the transition table of the status state machine
    (section 4.2), which no source file at hand implements.  [table_edge a b]
    holds when the table lists a transition from [a] to [b]. *)
Definition table_edge (a b : ClaimStatus.t) : bool :=
  match a, b with
  | ClaimStatus.SUBMITTED, ClaimStatus.VALIDATING
  | ClaimStatus.NEEDS_INFO, ClaimStatus.VALIDATING
  | ClaimStatus.VALIDATING, ClaimStatus.FRAUD_CHECK
  | ClaimStatus.VALIDATING, ClaimStatus.NEEDS_INFO
  | ClaimStatus.VALIDATING, ClaimStatus.REJECTED
  | ClaimStatus.FRAUD_CHECK, ClaimStatus.POLICY_CHECK
  | ClaimStatus.FRAUD_CHECK, ClaimStatus.REJECTED
  | ClaimStatus.POLICY_CHECK, ClaimStatus.DOCUMENT_ANALYSIS
  | ClaimStatus.POLICY_CHECK, ClaimStatus.REJECTED
  | ClaimStatus.DOCUMENT_ANALYSIS, ClaimStatus.DECISION_PENDING
  | ClaimStatus.DECISION_PENDING, ClaimStatus.APPROVED
  | ClaimStatus.DECISION_PENDING, ClaimStatus.REJECTED => true
  | _, _ => false
  end.

(** Modelled from the spec: the terminal states of section 4.2. *)
Definition terminal (s : ClaimStatus.t) : bool :=
  match s with
  | ClaimStatus.APPROVED | ClaimStatus.REJECTED => true
  | _ => false
  end.

(** Modelled from the spec: the remark below the table that any status but
    the two terminal ones may enter [validating] again on a fresh analyze
    request. *)
Definition reenters_validating (a b : ClaimStatus.t) : bool :=
  negb (terminal a) && bool_decide (b = ClaimStatus.VALIDATING).

(** Modelled from the spec: every move section 4.2 allows, by the table or
    by the remark. *)
Definition spec_edge (a b : ClaimStatus.t) : bool :=
  table_edge a b || reenters_validating a b.

(** ** Vocabulary of the statements *)

(** The response of a skipped analyze request. *)
Definition skipped (cid : string) : AnalysisTriggerResponse.t :=
  AnalysisTriggerResponse.mk cid
    "Claim analysis already in progress or completed" "skipped".

(** The record a claim becomes when a run starts at instant [now], and when it
    ends at instant [now] with [outcome]. *)
Definition started (now : datetime) (c : Claim.t) : Claim.t :=
  Claim.mk (Claim.claim_id c) (Claim.submission c) ClaimStatus.VALIDATING
    (Claim.created_at c) now (Claim.analysis c).

Definition ended (outcome : Exception + ClaimAnalysis.t) (now : datetime)
    (c : Claim.t) : Claim.t :=
  Claim.mk (Claim.claim_id c) (Claim.submission c) (status_after outcome)
    (Claim.created_at c) now
    (match outcome with
     | inr analysis => Some analysis
     | inl _ => Claim.analysis c
     end).

(** Whether [analyze_claim] runs the pipeline on a claim of this status. *)
Definition analyzable (s : ClaimStatus.t) : Prop :=
  s = ClaimStatus.SUBMITTED \/ s = ClaimStatus.NEEDS_INFO.

(** A status at which [list_claims] reports a claim as complete. *)
Definition finished (s : ClaimStatus.t) : Prop :=
  s = ClaimStatus.APPROVED \/ s = ClaimStatus.REJECTED.

(** The progress the single-claim lookup is expected to report, status by
    status. *)
Definition single_progress (s : ClaimStatus.t) : Z :=
  match s with
  | ClaimStatus.SUBMITTED => 10
  | ClaimStatus.VALIDATING => 20
  | ClaimStatus.FRAUD_CHECK => 40
  | ClaimStatus.POLICY_CHECK => 60
  | ClaimStatus.DOCUMENT_ANALYSIS => 80
  | ClaimStatus.DECISION_PENDING => 90
  | ClaimStatus.APPROVED => 100
  | ClaimStatus.REJECTED => 100
  | ClaimStatus.NEEDS_INFO => 50
  end.

(** The response of a run that has ended with [outcome]. *)
Definition response_after (format_status : ClaimStatus.t -> string)
    (cid : string) (outcome : Exception + ClaimAnalysis.t)
  : Result AnalysisTriggerResponse.t :=
  match outcome with
  | inr analysis =>
      Return (AnalysisTriggerResponse.mk cid
                ("Claim analysis completed. Status: " +:+
                   format_status (ClaimAnalysis.overall_status analysis))
                "completed")
  | inl e => Raise (HTTPException.mk 500 ("Analysis failed: " +:+ str e))
  end.




(** What holds of the heap, the dictionary and the suspended coroutines in
    every state the server can reach: an identifier is bound to an object
    that exists and carries that identifier; no two coroutines hold the same
    object; and an object held by a coroutine is [validating] and carries
    the identifier the coroutine was called with. *)
Definition well_formed {Orch : Type} (s : Server Orch) : Prop :=
  (forall k a, bindings s !! k = Some a ->
     exists c, heap s !! a = Some c /\ Claim.claim_id c = k) /\
  NoDup (task_claim <$> awaiting s) /\
  (forall t, t ∈ awaiting s ->
     exists c, heap s !! task_claim t = Some c /\
               Claim.status c = ClaimStatus.VALIDATING /\
               Claim.claim_id c = task_claim_id t).

(** The pipeline runs in flight for the identifier [cid]. *)
Definition active_runs {Orch : Type} (s : Server Orch) (cid : string)
  : list Task :=
  filter (fun t => task_claim_id t = cid) (awaiting s).

(** The object a suspended coroutine holds is still the one its identifier
    denotes. *)
Definition still_bound {Orch : Type} (s : Server Orch) (t : Task) : Prop :=
  bindings s !! task_claim_id t = Some (task_claim t).

(** How one step of the server may move the [Claim] object at address [a]:
    the status stays; or an analyze request on the identifier bound to the
    object takes it from [submitted] or [needs_info] to [validating]; or the
    pipeline run of the coroutine holding the object ends and takes it from
    [validating] to [status_after] the outcome; or the object is new, made by
    [submit_claim] with status [submitted].  An object never goes away. *)
Definition status_move {Orch : Type} (ev : Event Orch) (s : Server Orch)
    (a : nat) (before after : option Claim.t) : Prop :=
  match before, after with
  | Some c, Some c' =>
      Claim.status c' = Claim.status c \/
      (exists k,
         ev = AnalyzeClaim k /\ bindings s !! k = Some a /\
         analyzable (Claim.status c) /\
         Claim.status c' = ClaimStatus.VALIDATING) \/
      (exists k outcome o,
         ev = PipelineEnds k outcome o /\ mkTask k a ∈ awaiting s /\
         Claim.status c = ClaimStatus.VALIDATING /\
         Claim.status c' = status_after outcome)
  | None, Some c' =>
      (exists hex claim,
         ev = SubmitClaim hex claim /\
         Claim.claim_id c' = submitted_id hex) /\
      Claim.status c' = ClaimStatus.SUBMITTED
  | Some _, None => False
  | None, None => True
  end.

(** How one step of the server may change what the identifier [k] denotes:
    not at all, or [submit_claim] drew [k] and bound it to its new object. *)
Definition binding_move {Orch : Type} (ev : Event Orch)
    (s s' : Server Orch) (k : string) : Prop :=
  bindings s' !! k = bindings s !! k \/
  (exists hex claim a,
     ev = SubmitClaim hex claim /\ k = submitted_id hex /\
     heap s !! a = None /\ bindings s' !! k = Some a).

(** How one step of the server may change the status a reader sees under the
    identifier [k]: as [status_move] says of the object [k] denotes, or
    because [submit_claim] drew [k] and bound it to a new record, which is
    [submitted]. *)
Definition visible_move {Orch : Type} (ev : Event Orch) (k : string)
    (before after : option Claim.t) : Prop :=
  match before, after with
  | Some c, Some c' =>
      Claim.status c' = Claim.status c \/
      (ev = AnalyzeClaim k /\
       analyzable (Claim.status c) /\
       Claim.status c' = ClaimStatus.VALIDATING) \/
      (exists outcome o,
         ev = PipelineEnds k outcome o /\
         Claim.status c = ClaimStatus.VALIDATING /\
         Claim.status c' = status_after outcome) \/
      (exists hex claim,
         ev = SubmitClaim hex claim /\ k = submitted_id hex /\
         Claim.status c' = ClaimStatus.SUBMITTED)
  | None, Some c' =>
      (exists hex claim, ev = SubmitClaim hex claim /\ k = submitted_id hex) /\
      Claim.status c' = ClaimStatus.SUBMITTED
  | Some _, None => False
  | None, None => True
  end.

(** ** [config.py], and its use in [main.py] *)

Module Settings.
Record t : Type := mk {
  gemini_api_key : string;
  gemini_model : string;
  gemini_embedding_model : string;
  qdrant_host : string;
  qdrant_port : Z;
  qdrant_collection : string;
  embedding_dimension : Z;
  backend_host : string;
  backend_port : Z;
  debug_mode : bool;
  cors_origins : string;
  log_level : string
}.

(** [Settings()] when the environment and the [.env] file give the API key
    (the one field without a default) and nothing else. *)
Definition defaults (gemini_api_key : string) : t :=
  mk gemini_api_key "gemini-pro" "models/embedding-001"
     "localhost" 6333 "insurance_claims" 768
     "0.0.0.0" 8000 true
     "http://localhost:3000,http://localhost:3001"
     "INFO".
End Settings.

(** [s.split(sep)] for a separator of one character: the pieces between the
    occurrences of [sep], empty pieces included; [''.split(sep)] is [['']]. *)
Fixpoint split (sep : ascii) (s : string) : list string :=
  match s with
  | EmptyString => [EmptyString]
  | String c rest =>
      if Ascii.eqb c sep then EmptyString :: split sep rest
      else match split sep rest with
           | piece :: pieces => String c piece :: pieces
           | [] => [String c EmptyString]
           end
  end.

(** [allow_origins=settings.cors_origins.split(',')] *)
Definition allow_origins (settings : Settings.t) : list string :=
  split "," (Settings.cors_origins settings).

(** ** Further vocabulary *)

(** How often the character [sep] occurs in [s]. *)
Fixpoint occurrences (sep : ascii) (s : string) : nat :=
  match s with
  | EmptyString => 0
  | String c rest =>
      (if Ascii.eqb c sep then 1 else 0) + occurrences sep rest
  end%nat.

(** Classes of ASCII characters: [a]-[z]; the digits of [uuid4().hex]; the
    same digits in upper case. *)
Definition is_lower (c : ascii) : bool :=
  let n := nat_of_ascii c in ((97 <=? n) && (n <=? 122))%nat.

Definition is_hex_digit (c : ascii) : bool :=
  let n := nat_of_ascii c in
  (((48 <=? n) && (n <=? 57)) || ((97 <=? n) && (n <=? 102)))%nat.

Definition is_upper_hex_digit (c : ascii) : bool :=
  let n := nat_of_ascii c in
  (((48 <=? n) && (n <=? 57)) || ((65 <=? n) && (n <=? 70)))%nat.

Fixpoint every_char (p : ascii -> bool) (s : string) : bool :=
  match s with
  | EmptyString => true
  | String c rest => p c && every_char p rest
  end.

(** The server serving a sequence of events, one step each. *)
Inductive steps (clock : nat -> datetime) {Orch : Type}
    (format_status : ClaimStatus.t -> string)
  : Server Orch -> list (Event Orch) -> Server Orch -> Prop :=
| steps_nil s : steps clock format_status s [] s
| steps_cons s ev s' evs s'' :
    step clock format_status s ev s' ->
    steps clock format_status s' evs s'' ->
    steps clock format_status s (ev :: evs) s''.

(** Every record is stored under its own identifier. *)
Definition keys_match (db : gmap string Claim.t) : Prop :=
  forall k c, db !! k = Some c -> Claim.claim_id c = k.

(** A clock that never goes back. *)
Definition monotone (clock : nat -> datetime) : Prop :=
  forall i j : nat, (i <= j)%nat -> clock i <= clock j.

(** Every [Claim] object was created no later than it was last updated, and
    was last updated no later than some reading of the clock already
    taken. *)
Definition timely (clock : nat -> datetime) {Orch : Type} (s : Server Orch)
  : Prop :=
  forall a c, heap s !! a = Some c ->
    Claim.created_at c <= Claim.updated_at c /\
    exists i : nat, (i < reads s)%nat /\ Claim.updated_at c <= clock i.

(** The record [submit_claim] stores when it reads the clock for the [n]-th
    and [n+1]-st time. *)
Definition submitted (clock : nat -> datetime) (n : nat) (uuid4_hex : string)
    (claim : ClaimSubmission.t) : Claim.t :=
  Claim.mk (submitted_id uuid4_hex) claim ClaimStatus.SUBMITTED
    (clock n) (clock (S n)) None.

(** ** Sample data

    A stored claim, a clock that ticks once per reading, and two pipelines
    (one that approves, one that raises), on which the statements below are
    evaluated. *)
Definition sample_submission : ClaimSubmission.t :=
  ClaimSubmission.mk "POL-1001" ClaimType.AUTO 50000%float "2024-01-15"
    "Rear-end collision on the ring road" "Ada Jones" "ada@example.org"
    (Some []).

Definition sample_claim (s : ClaimStatus.t) (a : option ClaimAnalysis.t)
  : Claim.t :=
  Claim.mk "CLM-0001" sample_submission s 100 100 a.

Definition sample_analysis (s : ClaimStatus.t) : ClaimAnalysis.t :=
  ClaimAnalysis.mk "CLM-0001" None None None None None s (Some 1.5%float).

Definition sample_clock (n : nat) : datetime := 1000 + Z.of_nat n.

Definition sample_world (c : Claim.t) : World unit :=
  mkWorld {[ "CLM-0001" := c ]} 0%nat tt.

Definition approving_pipeline (o : unit) (s : ClaimSubmission.t) (cid : string)
  : (Exception + ClaimAnalysis.t) * unit :=
  (inr (sample_analysis ClaimStatus.APPROVED), tt).

Definition failing_pipeline (o : unit) (s : ClaimSubmission.t) (cid : string)
  : (Exception + ClaimAnalysis.t) * unit :=
  (inl (Exc "model endpoint unreachable"), tt).

(** The sample claim after a run that raised. *)
Definition sample_failed : World unit :=
  mkWorld
    {[ "CLM-0001" := Claim.mk "CLM-0001" sample_submission
                       ClaimStatus.SUBMITTED 100 1001 None ]}
    2%nat tt.



(** The server before any request. *)
Definition empty_world : World unit := mkWorld ∅ 0%nat tt.

Definition sample_hex : string := "3f2a9c1b7d4e4f0a8b6c5d4e3f2a1b0c".





(** ** Sample states of the server

    The states the server goes through when the sample claim is submitted
    and analyzed, and when, with its run still in flight, a second
    submission draws the same identifier and is analyzed too.  Both
    hexadecimal strings are version-4 UUIDs. *)
Definition colliding_hex : string := "3f2a9c1b0e1d4c2b9a3f5e6d7c8b9a0f".

Definition sample_id : string := submitted_id sample_hex.

Definition unreachable : Exception := Exc "model endpoint unreachable".

(** The record of the sample submission as [submit_claim] stores it, with
    its run in flight, and after the run has failed or approved it; and the
    record of the second submission. *)
Definition sample_record : Claim.t :=
  submitted sample_clock 0 sample_hex sample_submission.

Definition sample_record_started : Claim.t :=
  started (sample_clock 2) sample_record.

Definition sample_record_failed : Claim.t :=
  ended (inl unreachable) (sample_clock 3) sample_record_started.

Definition sample_record_approved : Claim.t :=
  ended (inr (sample_analysis ClaimStatus.APPROVED)) (sample_clock 3)
    sample_record_started.

Definition second_record : Claim.t :=
  submitted sample_clock 3 colliding_hex sample_submission.

Definition server_start : Server unit := mkServer ∅ ∅ 0%nat tt [].

Definition server_submitted : Server unit :=
  mkServer (<[0%nat := sample_record]> (heap server_start))
    (<[submitted_id sample_hex := 0%nat]> (bindings server_start))
    2%nat tt [].

Definition server_analyzing : Server unit :=
  mkServer (<[0%nat := sample_record_started]> (heap server_submitted))
    (bindings server_submitted) 3%nat tt [mkTask sample_id 0%nat].

Definition server_failed : Server unit :=
  mkServer (<[0%nat := sample_record_failed]> (heap server_analyzing))
    (bindings server_analyzing) 4%nat tt [].

Definition server_approved : Server unit :=
  mkServer (<[0%nat := sample_record_approved]> (heap server_analyzing))
    (bindings server_analyzing) 4%nat tt [].

Definition server_rebound : Server unit :=
  mkServer (<[1%nat := second_record]> (heap server_analyzing))
    (<[submitted_id colliding_hex := 1%nat]> (bindings server_analyzing))
    5%nat tt [mkTask sample_id 0%nat].

Definition server_two_runs : Server unit :=
  mkServer
    (<[1%nat := started (sample_clock 5) second_record]> (heap server_rebound))
    (bindings server_rebound) 6%nat tt
    [mkTask sample_id 1%nat; mkTask sample_id 0%nat].

(** ** Properties *)

(** *** The schemas *)

Lemma check_float_passes loc b x :
  Field.check_float loc b x = [] <->
  Field.le_holds (Field.le b) x = true /\
  Field.ge_holds (Field.ge b) x = true /\
  Field.gt_holds (Field.gt b) x = true.
Proof.
  unfold Field.check_float.
  destruct (Field.le_holds (Field.le b) x),
           (Field.ge_holds (Field.ge b) x),
           (Field.gt_holds (Field.gt b) x);
    simpl; intuition congruence.
Qed.

Lemma check_str_passes loc b s :
  Field.check_str loc b s = [] <->
  match Field.min_length b with
  | Some n => (n <= len s)%nat
  | None => True
  end.
Proof.
  unfold Field.check_str. destruct (Field.min_length b) as [n |]; [| done].
  destruct (Nat.leb_spec n (len s)); split; try done; lia.
Qed.

(** C7: [ClaimSubmission(...)] returns a submission only if the amount is
    strictly greater than 0 and the description has at least 20 characters
    (code points, not bytes),
    and [AgentResult(...)] returns a result only if the confidence is at
    least 0.0 and at most 1.0; otherwise the construction is rejected with a
    non-empty list of errors.  The comparisons are those of binary64 floats,
    so NaN is rejected by both. *)
Theorem schema_bounds_enforced :
  (forall policy_number claim_type amount incident_date description
          claimant_name claimant_email documents,
     match ClaimSubmission.init policy_number claim_type amount incident_date
             description claimant_name claimant_email documents with
     | inr s =>
         PrimFloat.ltb 0 amount = true /\
         (20 <= len description)%nat /\
         ClaimSubmission.claim_amount s = amount /\
         ClaimSubmission.description s = description
     | inl errors =>
         errors <> [] /\
         (PrimFloat.ltb 0 amount = false \/
          (len description < 20)%nat)
     end) /\
  (forall agent_name status confidence findings recommendations metadata,
     match AgentResult.init agent_name status confidence findings
             recommendations metadata with
     | inr r =>
         PrimFloat.leb 0 confidence = true /\
         PrimFloat.leb confidence 1 = true /\
         AgentResult.confidence r = confidence
     | inl errors =>
         errors <> [] /\
         (PrimFloat.leb 0 confidence = false \/
          PrimFloat.leb confidence 1 = false)
     end).
Proof.
  split.
  - intros pn ct amount date desc name email docs. unfold ClaimSubmission.init.
    destruct (Field.check_float _ _ amount) as [| e es] eqn:Ha;
      [destruct (Field.check_str _ _ desc) as [| e es] eqn:Hd |]; simpl.
    + apply check_float_passes in Ha as (_ & _ & Ha).
      apply check_str_passes in Hd. simpl in *. done.
    + split; [done |]. right.
      destruct (Nat.lt_ge_cases (len desc) 20) as [Hlt | Hge]; [done |].
      assert (Field.check_str "description" ClaimSubmission.description_field desc = [])
        as Hnil by (by apply check_str_passes).
      congruence.
    + split; [done |]. left.
      destruct (PrimFloat.ltb 0 amount) eqn:Hlt; [| done].
      assert (Field.check_float "claim_amount" ClaimSubmission.claim_amount_field
                amount = []) as Hnil by (by apply check_float_passes).
      congruence.
  - intros name status conf findings recs meta. unfold AgentResult.init.
    destruct (Field.check_float _ _ conf) as [| e es] eqn:Hc; simpl.
    + apply check_float_passes in Hc as (Hle & Hge & _). simpl in *. done.
    + split; [done |].
      destruct (PrimFloat.leb 0 conf) eqn:Hge; [| by left].
      destruct (PrimFloat.leb conf 1) eqn:Hle; [| by right].
      assert (Field.check_float "confidence" AgentResult.confidence_field conf = [])
        as Hnil by (by apply check_float_passes).
      congruence.
Qed.

(** The length of a description is counted in characters: seven euro signs
    are 21 bytes and 7 characters, and are refused; twenty of them are
    accepted. *)
Example description_length_in_characters :
  String.length "€€€€€€€" = 21%nat /\
  len "€€€€€€€" = 7%nat /\
  ClaimSubmission.init "P" ClaimType.HOME 120.5%float "2024-01-15"
    "€€€€€€€" "N" "n@example.org" None
    = inl [("description", "string_too_short")] /\
  len "€€€€€€€€€€€€€€€€€€€€" = 20%nat /\
  ClaimSubmission.init "P" ClaimType.HOME 120.5%float "2024-01-15"
    "€€€€€€€€€€€€€€€€€€€€" "N" "n@example.org" None
    = inr (ClaimSubmission.mk "P" ClaimType.HOME 120.5%float "2024-01-15"
             "€€€€€€€€€€€€€€€€€€€€" "N" "n@example.org" (Some [])) /\
  len "Dégât des eaux, café" = 20%nat.
Proof. repeat split; vm_compute; reflexivity. Qed.

(** The bounds at work: zero, a negative amount and NaN are refused, a
    nineteen-character description is refused, and the confidence may be 0.0
    or 1.0 but not the next float above 1.0. *)
Example init_examples :
  ClaimSubmission.init "P" ClaimType.HOME 0%float "2024-01-15"
    "A burst pipe flooded the kitchen" "N" "n@example.org" None
    = inl [("claim_amount", "greater_than")] /\
  ClaimSubmission.init "P" ClaimType.HOME nan "2024-01-15"
    "A burst pipe flooded the kitchen" "N" "n@example.org" None
    = inl [("claim_amount", "greater_than")] /\
  ClaimSubmission.init "P" ClaimType.HOME (-5)%float "2024-01-15"
    "nineteen characters" "N" "n@example.org" None
    = inl [("claim_amount", "greater_than"); ("description", "string_too_short")] /\
  ClaimSubmission.init "P" ClaimType.HOME 120.5%float "2024-01-15"
    "twenty characters ok" "N" "n@example.org" None
    = inr (ClaimSubmission.mk "P" ClaimType.HOME 120.5%float "2024-01-15"
             "twenty characters ok" "N" "n@example.org" (Some [])) /\
  AgentResult.init "fraud" "passed" 1%float "ok" None None
    = inr (AgentResult.mk "fraud" "passed" 1%float "ok" (Some []) (Some [])) /\
  AgentResult.init "fraud" "passed" 0%float "ok" None None
    = inr (AgentResult.mk "fraud" "passed" 0%float "ok" (Some []) (Some [])) /\
  AgentResult.init "fraud" "passed" 0x1.0000000000001p+0%float "ok" None None
    = inl [("confidence", "less_than_equal")] /\
  AgentResult.init "fraud" "passed" nan "ok" None None
    = inl [("confidence", "less_than_equal")] /\
  AgentResult.init "fraud" "passed" (-0.25)%float "ok" None None
    = inl [("confidence", "greater_than_equal")].
Proof. repeat split; vm_compute; reflexivity. Qed.

(** *** The handlers *)

(** A submission on the empty server: the identifier is the upper-cased
    first eight digits of the drawn hexadecimal string, and the record is
    stored with status [submitted] and two successive clock readings. *)
Example submit_on_empty_server :
  submit_claim sample_clock "3f2a9c1b7d4e4f0a8b6c5d4e3f2a1b0c"
    sample_submission (mkWorld ∅ 0%nat tt)
  = (Return (ClaimResponse.mk "CLM-3F2A9C1B" ClaimStatus.SUBMITTED
               "Claim submitted successfully. Your claim ID is CLM-3F2A9C1B"
               1000),
     mkWorld
       {[ "CLM-3F2A9C1B" := Claim.mk "CLM-3F2A9C1B" sample_submission
                              ClaimStatus.SUBMITTED 1000 1001 None ]}
       2%nat tt).
Proof. vm_compute. reflexivity. Qed.

Section Properties.

Context (clock : nat -> datetime) {Orch : Type}.
Context (process_claim :
  Orch -> ClaimSubmission.t -> string -> (Exception + ClaimAnalysis.t) * Orch).
Context (format_status : ClaimStatus.t -> string).

Implicit Types (w : World Orch) (c : Claim.t) (cid : string).

Local Abbreviation analyze := (analyze_claim clock process_claim format_status).
Local Abbreviation enter := (analyze_claim_enter clock).
Local Abbreviation resume := (analyze_claim_resume clock format_status).

Lemma guard_analyzable (s : ClaimStatus.t) :
  bool_decide (s ∈ [ClaimStatus.SUBMITTED; ClaimStatus.NEEDS_INFO]) = true
  <-> analyzable s.
Proof.
  rewrite bool_decide_eq_true. unfold analyzable.
  rewrite !elem_of_cons, elem_of_nil. tauto.
Qed.

Lemma guard_not_analyzable (s : ClaimStatus.t) :
  bool_decide (s ∈ [ClaimStatus.SUBMITTED; ClaimStatus.NEEDS_INFO]) = false
  <-> ~ analyzable s.
Proof.
  rewrite <- guard_analyzable. destruct (bool_decide _); split; congruence.
Qed.

Lemma enter_not_found w cid :
  claims_db w !! cid = None -> enter cid w = (not_found cid, w).
Proof. intros Hc. unfold analyze_claim_enter. by rewrite Hc. Qed.

Lemma enter_skips w cid c :
  claims_db w !! cid = Some c -> ~ analyzable (Claim.status c) ->
  enter cid w = (Return (inl (skipped cid)), w).
Proof.
  intros Hc Hs. unfold analyze_claim_enter. rewrite Hc.
  apply guard_not_analyzable in Hs. by rewrite Hs.
Qed.

Lemma enter_runs w cid c :
  claims_db w !! cid = Some c -> analyzable (Claim.status c) ->
  enter cid w =
    (Return (inr (Claim.submission c)),
     mkWorld (<[cid := started (clock (clock_reads w)) c]> (claims_db w))
       (S (clock_reads w)) (orchestrator w)).
Proof.
  intros Hc Hs. unfold analyze_claim_enter. rewrite Hc.
  apply guard_analyzable in Hs. rewrite Hs. simpl.
  unfold assign, set_claims_db. simpl.
  by rewrite (alter_alt_Some _ _ _ _ Hc), alter_insert_eq.
Qed.

Lemma resume_stored w cid c outcome :
  claims_db w !! cid = Some c ->
  resume cid outcome w =
    (response_after format_status cid outcome,
     mkWorld (<[cid := ended outcome (clock (clock_reads w)) c]> (claims_db w))
       (S (clock_reads w)) (orchestrator w)).
Proof.
  intros Hc. unfold analyze_claim_resume.
  destruct outcome as [e | analysis]; simpl.
  all: unfold assign, set_claims_db; simpl.
  all: by rewrite (alter_alt_Some _ _ _ _ Hc), !alter_insert_eq.
Qed.

Lemma ended_started outcome t1 t2 c :
  ended outcome t2 (started t1 c) = ended outcome t2 c.
Proof. by destruct outcome. Qed.

(** A request on an analyzable claim, served with nothing in between: the
    record ends as [ended] says, two clock readings later. *)
Lemma analyze_runs w cid c outcome o :
  claims_db w !! cid = Some c -> analyzable (Claim.status c) ->
  process_claim (orchestrator w) (Claim.submission c) cid = (outcome, o) ->
  analyze cid w =
    (response_after format_status cid outcome,
     mkWorld (<[cid := ended outcome (clock (S (clock_reads w))) c]> (claims_db w))
       (S (S (clock_reads w))) o).
Proof.
  intros Hc Hs Hrun. unfold analyze_claim.
  rewrite (enter_runs _ _ _ Hc Hs).
  unfold await_process_claim. simpl. rewrite Hrun.
  erewrite resume_stored by (simpl; apply lookup_insert_eq).
  simpl. by rewrite insert_insert_eq, ended_started.
Qed.

Lemma analyze_skips w cid c :
  claims_db w !! cid = Some c -> ~ analyzable (Claim.status c) ->
  analyze cid w = (Return (skipped cid), w).
Proof.
  intros Hc Hs. unfold analyze_claim. by rewrite (enter_skips _ _ _ Hc Hs).
Qed.

Lemma analyze_not_found w cid :
  claims_db w !! cid = None -> analyze cid w = (not_found cid, w).
Proof.
  intros Hc. unfold analyze_claim. by rewrite (enter_not_found _ _ Hc).
Qed.

(** C1: an analyze request on a stored claim whose status is neither
    [submitted] nor [needs_info] (so also [approved], [rejected] and
    [validating]) returns the "skipped" response and leaves the whole world
    as it was: no claim is touched, the clock is not read and the pipeline is
    not called. *)
Theorem analyze_skipped_without_change w cid c :
  claims_db w !! cid = Some c ->
  Claim.status c <> ClaimStatus.SUBMITTED ->
  Claim.status c <> ClaimStatus.NEEDS_INFO ->
  analyze cid w = (Return (skipped cid), w) /\
  AnalysisTriggerResponse.status (skipped cid) = "skipped".
Proof.
  intros Hc Hs Hn. split; [| done].
  apply (analyze_skips _ _ _ Hc). unfold analyzable. tauto.
Qed.


(** C6: for an identifier that is not a key of the dictionary, the status
    lookup, the analyze request and the results request each raise
    [HTTPException] 404 "Claim <id> not found" and leave the world as it
    was. *)
Theorem unknown_claim_is_not_found w cid :
  claims_db w !! cid = None ->
  get_claim_status cid w =
    (Raise (HTTPException.mk 404 ("Claim " +:+ cid +:+ " not found")), w) /\
  analyze cid w =
    (Raise (HTTPException.mk 404 ("Claim " +:+ cid +:+ " not found")), w) /\
  get_analysis_results cid w =
    (Raise (HTTPException.mk 404 ("Claim " +:+ cid +:+ " not found")), w).
Proof.
  intros Hc. split; [| split].
  - unfold get_claim_status. by rewrite Hc.
  - by rewrite (analyze_not_found _ _ Hc).
  - unfold get_analysis_results. by rewrite Hc.
Qed.

(** C9: for a stored claim with no analysis yet, the results request returns
    (it does not raise) a dictionary of the identifier, the current status and
    a message asking to trigger the analysis first; the world is not
    changed. *)
Theorem results_before_analysis w cid c :
  claims_db w !! cid = Some c ->
  Claim.analysis c = None ->
  get_analysis_results cid w =
    (Return [ ("claim_id", RStr cid);
              ("status", RStatus (Claim.status c));
              ("message",
               RStr "Analysis not yet completed. Please trigger analysis first.") ],
     w).
Proof.
  intros Hc Ha. unfold get_analysis_results. by rewrite Hc, Ha.
Qed.

(** C2, as the code has it: when the pipeline raises on a claim in
    [submitted] or [needs_info], the request raises [HTTPException] 500
    "Analysis failed: <str(e)>", and the stored record has its status set to
    [submitted] and [updated_at] set to the clock reading taken in the
    handler; identifier, submission, creation time and analysis are kept, and
    so is every other claim. *)
Theorem analyze_failure_resets_to_submitted w cid c e o :
  claims_db w !! cid = Some c ->
  analyzable (Claim.status c) ->
  process_claim (orchestrator w) (Claim.submission c) cid = (inl e, o) ->
  analyze cid w =
    (Raise (HTTPException.mk 500 ("Analysis failed: " +:+ str e)),
     mkWorld
       (<[cid := Claim.mk (Claim.claim_id c) (Claim.submission c)
                   ClaimStatus.SUBMITTED (Claim.created_at c)
                   (clock (S (clock_reads w))) (Claim.analysis c)]>
          (claims_db w))
       (S (S (clock_reads w))) o).
Proof.
  intros Hc Hs Hrun. by rewrite (analyze_runs _ _ _ _ _ Hc Hs Hrun).
Qed.

Lemma list_entry_by_status (s : ClaimStatus.t) c :
  Claim.status c = s ->
  (finished s <->
     ClaimStatusResponse.progress_percentage (list_claims_entry c) = 100 /\
     ClaimStatusResponse.current_step (list_claims_entry c) = "Complete") /\
  (~ finished s <->
     ClaimStatusResponse.progress_percentage (list_claims_entry c) = 50 /\
     ClaimStatusResponse.current_step (list_claims_entry c) = "Processing").
Proof.
  intros Hs. unfold list_claims_entry, finished. rewrite Hs.
  destruct s; simpl; intuition congruence.
Qed.

Lemma status_progress_differs (s : ClaimStatus.t) :
  ~ finished s -> s <> ClaimStatus.NEEDS_INFO ->
  dict_get status_progress s 0 <> 50.
Proof.
  unfold finished. destruct s; vm_compute; intuition congruence.
Qed.

(** C10: [list_claims] returns one entry per stored claim and changes
    nothing.  The entry of a claim reports progress 100 and step "Complete"
    exactly when the status is [approved] or [rejected], and progress 50 and
    step "Processing" exactly when it is any other status.
    [get_claim_status] on the same claim reports the progress of its own
    table (10 for [submitted], 20, 40, 60, 80, 90 for the statuses of the
    pipeline, 100 for the two final ones, 50 for [needs_info]); so for a
    claim whose status is none of [approved], [rejected], [needs_info], the
    two operations report different progress values. *)
Theorem list_progress_against_status_progress w cid c :
  claims_db w !! cid = Some c ->
  exists entries,
    list_claims w = (Return entries, w) /\
    length entries = size (claims_db w) /\
    (forall e, e ∈ entries <->
       exists k c', claims_db w !! k = Some c' /\ e = list_claims_entry c') /\
    list_claims_entry c ∈ entries /\
    ClaimStatusResponse.claim_id (list_claims_entry c) = Claim.claim_id c /\
    ClaimStatusResponse.status (list_claims_entry c) = Claim.status c /\
    (finished (Claim.status c) <->
       ClaimStatusResponse.progress_percentage (list_claims_entry c) = 100 /\
       ClaimStatusResponse.current_step (list_claims_entry c) = "Complete") /\
    (~ finished (Claim.status c) <->
       ClaimStatusResponse.progress_percentage (list_claims_entry c) = 50 /\
       ClaimStatusResponse.current_step (list_claims_entry c) = "Processing") /\
    (exists r,
       get_claim_status cid w = (Return r, w) /\
       ClaimStatusResponse.status r = Claim.status c /\
       ClaimStatusResponse.progress_percentage r
       = single_progress (Claim.status c) /\
       (~ finished (Claim.status c) ->
        Claim.status c <> ClaimStatus.NEEDS_INFO ->
        ClaimStatusResponse.progress_percentage r <>
          ClaimStatusResponse.progress_percentage (list_claims_entry c))).
Proof.
  intros Hc.
  assert (Hin : forall e, e ∈ list_claims_entry <$> (map_to_list (claims_db w)).*2 <->
            exists k c', claims_db w !! k = Some c' /\ e = list_claims_entry c').
  { intros e. rewrite list_elem_of_fmap. split.
    - intros (c' & -> & Hc'). apply list_elem_of_fmap in Hc' as ([k c''] & -> & Hk).
      apply elem_of_map_to_list in Hk. by exists k, c''.
    - intros (k & c' & Hk & ->). exists c'. split; [done |].
      apply list_elem_of_fmap. exists (k, c'). split; [done |].
      by apply elem_of_map_to_list. }
  destruct (list_entry_by_status (Claim.status c) c eq_refl) as [Hfin Hnot].
  eexists. split; [reflexivity |].
  split; [by rewrite !length_fmap, length_map_to_list |].
  split; [exact Hin |].
  split; [apply Hin; by exists cid, c |].
  split; [done |]. split; [done |].
  split; [exact Hfin |]. split; [exact Hnot |].
  eexists. unfold get_claim_status. rewrite Hc.
  split; [reflexivity |]. split; [done |].
  cbn [ClaimStatusResponse.progress_percentage].
  split; [by destruct (Claim.status c) |].
  intros Hnf Hni. destruct (proj1 Hnot Hnf) as [Hfifty _]. rewrite Hfifty.
  by apply status_progress_differs.
Qed.




(** *** The server *)

Local Abbreviation moves := (step clock format_status).
Local Abbreviation reach := (reachable clock format_status).

Lemma enter_cases w cid r w' :
  enter cid w = (r, w') ->
  (claims_db w !! cid = None /\ r = not_found cid /\ w' = w) \/
  (exists c, claims_db w !! cid = Some c /\ ~ analyzable (Claim.status c) /\
             r = Return (inl (skipped cid)) /\ w' = w) \/
  (exists c, claims_db w !! cid = Some c /\ analyzable (Claim.status c) /\
             r = Return (inr (Claim.submission c)) /\
             w' = mkWorld (<[cid := started (clock (clock_reads w)) c]> (claims_db w))
                    (S (clock_reads w)) (orchestrator w)).
Proof.
  intros He. destruct (claims_db w !! cid) as [c |] eqn:Hc.
  - right.
    destruct (bool_decide (Claim.status c ∈
                [ClaimStatus.SUBMITTED; ClaimStatus.NEEDS_INFO])) eqn:Hg.
    + apply guard_analyzable in Hg. right. exists c.
      rewrite (enter_runs _ _ _ Hc Hg) in He. by injection He as <- <-.
    + apply guard_not_analyzable in Hg. left. exists c.
      rewrite (enter_skips _ _ _ Hc Hg) in He. by injection He as <- <-.
  - left. rewrite (enter_not_found _ _ Hc) in He. by injection He as <- <-.
Qed.

(** *** More on the handlers *)

Lemma alter_absent (f : Claim.t -> Claim.t) (db : gmap string Claim.t) k :
  db !! k = None -> alter f k db = db.
Proof.
  intros Hk. apply map_eq. intros j. rewrite lookup_alter.
  case_decide; subst; by rewrite ?Hk.
Qed.

Lemma submit_runs hex claim w :
  submit_claim clock hex claim w =
    (Return (ClaimResponse.mk (submitted_id hex) ClaimStatus.SUBMITTED
               ("Claim submitted successfully. Your claim ID is " +:+
                  submitted_id hex)
               (clock (clock_reads w))),
     mkWorld
       (<[submitted_id hex := submitted clock (clock_reads w) hex claim]>
          (claims_db w))
       (S (S (clock_reads w))) (orchestrator w)).
Proof. reflexivity. Qed.

(** X1: a submission can be read back at once.  Whatever the server holds,
    [submit_claim] answers with the new identifier and the first clock
    reading, and right after it the status request on that identifier
    reports [submitted], step "Claim received and queued", progress 10, no
    analysis and the second clock reading, while the results request says
    that the analysis has not run. *)
Theorem submit_then_read hex claim w :
  let w' := (submit_claim clock hex claim w).2 in
  (submit_claim clock hex claim w).1 =
    Return (ClaimResponse.mk (submitted_id hex) ClaimStatus.SUBMITTED
              ("Claim submitted successfully. Your claim ID is " +:+
                 submitted_id hex)
              (clock (clock_reads w))) /\
  get_claim_status (submitted_id hex) w' =
    (Return (ClaimStatusResponse.mk (submitted_id hex) ClaimStatus.SUBMITTED
               "Claim received and queued" 10 None
               (clock (S (clock_reads w)))),
     w') /\
  get_analysis_results (submitted_id hex) w' =
    (Return [ ("claim_id", RStr (submitted_id hex));
              ("status", RStatus ClaimStatus.SUBMITTED);
              ("message",
               RStr "Analysis not yet completed. Please trigger analysis first.") ],
     w').
Proof.
  rewrite submit_runs. simpl. split; [done |].
  unfold get_claim_status, get_analysis_results. simpl.
  by rewrite lookup_insert_eq.
Qed.

(** X2: [submit_claim] writes one entry and nothing else.  Every other key
    keeps its record, the orchestrator is not touched, the clock is read
    twice, and the entry under the new identifier is the fresh record,
    replacing whatever was stored there; the dictionary grows by one key
    exactly when the identifier was not in use. *)
Theorem submit_writes_one_entry hex claim w :
  let w' := (submit_claim clock hex claim w).2 in
  (forall k, k <> submitted_id hex -> claims_db w' !! k = claims_db w !! k) /\
  claims_db w' !! submitted_id hex =
    Some (Claim.mk (submitted_id hex) claim ClaimStatus.SUBMITTED
            (clock (clock_reads w)) (clock (S (clock_reads w))) None) /\
  dom (claims_db w') = {[ submitted_id hex ]} ∪ dom (claims_db w) /\
  (claims_db w !! submitted_id hex = None <->
   size (claims_db w') = S (size (claims_db w))) /\
  (is_Some (claims_db w !! submitted_id hex) <->
   size (claims_db w') = size (claims_db w)) /\
  clock_reads w' = S (S (clock_reads w)) /\
  orchestrator w' = orchestrator w.
Proof.
  rewrite submit_runs. simpl.
  split; [intros k Hk; by rewrite lookup_insert_ne |].
  split; [apply lookup_insert_eq |].
  split; [apply dom_insert_L |].
  destruct (claims_db w !! submitted_id hex) as [c |] eqn:Hc.
  - assert (size (<[submitted_id hex := submitted clock (clock_reads w) hex claim]>
                    (claims_db w)) = size (claims_db w)) as Hsize.
    { rewrite <- !size_dom, dom_insert_L.
      rewrite subseteq_union_1_L; [done |].
      apply singleton_subseteq_l. by apply elem_of_dom_2 with c. }
    rewrite Hsize. split_and!; try done; split; intros; try done; try lia.
  - rewrite (map_size_insert_None _ _ _ Hc).
    split_and!; try done; split; intros; try done; try lia.
Qed.

(** X3: the three read operations never write.  For any identifier and any
    state, [get_claim_status], [list_claims] and [get_analysis_results] leave
    the world as it is; [list_claims] always returns, and the other two
    return exactly when the identifier is stored (and raise 404 otherwise). *)
Theorem reads_do_not_write w cid :
  (get_claim_status cid w).2 = w /\
  (list_claims w).2 = w /\
  (get_analysis_results cid w).2 = w /\
  (exists entries, (list_claims w).1 = Return entries) /\
  ((exists r, (get_claim_status cid w).1 = Return r) <->
   is_Some (claims_db w !! cid)) /\
  ((exists r, (get_analysis_results cid w).1 = Return r) <->
   is_Some (claims_db w !! cid)) /\
  (claims_db w !! cid = None <->
   (get_claim_status cid w).1 = not_found cid) /\
  (claims_db w !! cid = None <->
   (get_analysis_results cid w).1 = not_found cid).
Proof.
  unfold get_claim_status, get_analysis_results, list_claims, not_found.
  destruct (claims_db w !! cid) as [c |] eqn:Hc.
  - destruct (Claim.analysis c); simpl; split_and!; try done;
      try (by eexists); split; try done; by eexists.
  - simpl. split_and!; try done; try (by eexists); split; try done;
      by intros [? [=]].
Qed.

(** X4: what [get_claim_status] reports for a stored claim.  The status is
    the stored one, the progress lies between 10 and 100 and is 100 exactly
    for [approved] and [rejected], and the step is never the fallback
    "Processing" (nor the progress the fallback 0): both tables have an
    entry for every status. *)
Theorem status_progress_in_range w cid c :
  claims_db w !! cid = Some c ->
  exists r,
    get_claim_status cid w = (Return r, w) /\
    ClaimStatusResponse.claim_id r = cid /\
    ClaimStatusResponse.status r = Claim.status c /\
    ClaimStatusResponse.analysis r = Claim.analysis c /\
    ClaimStatusResponse.updated_at r = Claim.updated_at c /\
    10 <= ClaimStatusResponse.progress_percentage r <= 100 /\
    (ClaimStatusResponse.progress_percentage r = 100 <->
     finished (Claim.status c)) /\
    ClaimStatusResponse.current_step r <> "Processing".
Proof.
  intros Hc. unfold get_claim_status. rewrite Hc. eexists.
  split; [reflexivity |]. simpl. unfold finished.
  destruct (Claim.status c); vm_compute; intuition congruence.
Qed.

Lemma analyze_cases w cid :
  (claims_db w !! cid = None /\ analyze cid w = (not_found cid, w)) \/
  (exists c, claims_db w !! cid = Some c /\ ~ analyzable (Claim.status c) /\
             analyze cid w = (Return (skipped cid), w)) \/
  (exists c outcome o,
     claims_db w !! cid = Some c /\ analyzable (Claim.status c) /\
     process_claim (orchestrator w) (Claim.submission c) cid = (outcome, o) /\
     analyze cid w =
       (response_after format_status cid outcome,
        mkWorld (<[cid := ended outcome (clock (S (clock_reads w))) c]> (claims_db w))
          (S (S (clock_reads w))) o)).
Proof.
  destruct (claims_db w !! cid) as [c |] eqn:Hc.
  - right.
    destruct (bool_decide (Claim.status c ∈
                [ClaimStatus.SUBMITTED; ClaimStatus.NEEDS_INFO])) eqn:Hg.
    + apply guard_analyzable in Hg. right.
      destruct (process_claim (orchestrator w) (Claim.submission c) cid)
        as [outcome o] eqn:Hrun.
      exists c, outcome, o. by rewrite (analyze_runs _ _ _ _ _ Hc Hg Hrun).
    + apply guard_not_analyzable in Hg. left. exists c.
      by rewrite (analyze_skips _ _ _ Hc Hg).
  - left. by rewrite (analyze_not_found _ _ Hc).
Qed.

(** X5: an analyze request touches at most the record it names.  Whatever
    the state, the identifier and the outcome of the pipeline: no key is
    added or removed, every other record is as before, the record under the
    identifier keeps its identifier, submission and creation time, and the
    clock is read either not at all or twice. *)
Theorem analyze_touches_one_record w cid :
  let w' := (analyze_claim clock process_claim format_status cid w).2 in
  dom (claims_db w') = dom (claims_db w) /\
  (forall k, k <> cid -> claims_db w' !! k = claims_db w !! k) /\
  (forall c, claims_db w !! cid = Some c ->
     exists c', claims_db w' !! cid = Some c' /\
       Claim.claim_id c' = Claim.claim_id c /\
       Claim.submission c' = Claim.submission c /\
       Claim.created_at c' = Claim.created_at c) /\
  (clock_reads w' = clock_reads w \/ clock_reads w' = S (S (clock_reads w))).
Proof.
  destruct (analyze_cases w cid)
    as [(Hc & ->) | [(c & Hc & Hs & ->) | (c & outcome & o & Hc & Hs & Hrun & ->)]];
    simpl.
  - split_and!; try done; [| by left]. intros c Hc'. congruence.
  - split_and!; try done; [| by left]. intros c' Hc'. by exists c'.
  - split_and!.
    + rewrite dom_insert_L. apply subseteq_union_1_L.
      apply singleton_subseteq_l. by apply elem_of_dom_2 with c.
    + intros k Hk. by rewrite lookup_insert_ne.
    + intros c' Hc'. assert (c' = c) as -> by congruence.
      eexists. by rewrite lookup_insert_eq.
    + by right.
Qed.

(** X6: which answer an analyze request gets, exactly.  It raises 404 exactly
    when the identifier is not stored; it returns "skipped" exactly when the
    claim is stored with a status other than [submitted] and [needs_info];
    it returns "completed" exactly when the claim is stored with one of these
    two statuses and the pipeline returns an analysis; it raises 500 exactly
    when the claim is stored with one of them and the pipeline raises. *)
Theorem analyze_answers w cid :
  let r := (analyze cid w).1 in
  (r = not_found cid <-> claims_db w !! cid = None) /\
  (r = Return (skipped cid) <->
   exists c, claims_db w !! cid = Some c /\ ~ analyzable (Claim.status c)) /\
  ((exists resp, r = Return resp /\
                 AnalysisTriggerResponse.status resp = "completed") <->
   exists c a, claims_db w !! cid = Some c /\ analyzable (Claim.status c) /\
     (process_claim (orchestrator w) (Claim.submission c) cid).1 = inr a) /\
  ((exists e, r = Raise e /\ HTTPException.status_code e = 500) <->
   exists c ex, claims_db w !! cid = Some c /\ analyzable (Claim.status c) /\
     (process_claim (orchestrator w) (Claim.submission c) cid).1 = inl ex).
Proof.
  destruct (analyze_cases w cid)
    as [(Hc & ->) | [(c & Hc & Hs & ->) | (c & outcome & o & Hc & Hs & Hrun & ->)]];
    simpl; (split; [| split; [| split]]).
  - done.
  - split; [done |]. intros (c & Hc' & _). congruence.
  - split; [by intros (resp & [=] & _) |]. intros (c & a & Hc' & _). congruence.
  - split; [by intros (e & [= <-] & [=]) |].
    intros (c & ex & Hc' & _). congruence.
  - split; [done |]. congruence.
  - split; [intros _; by exists c | done].
  - split; [by intros (resp & [= <-] & [=]) |].
    intros (c' & a & Hc' & Hs' & _). assert (c' = c) as -> by congruence. done.
  - split; [by intros (e & [=] & _) |].
    intros (c' & ex & Hc' & Hs' & _). assert (c' = c) as -> by congruence. done.
  - split; [by destruct outcome | congruence].
  - split; [by destruct outcome |].
    intros (c' & Hc' & Hs'). assert (c' = c) as -> by congruence. done.
  - split.
    + intros (resp & Hr & Hst). destruct outcome as [ex | a]; [done |].
      exists c, a. by rewrite Hrun.
    + intros (c' & a & Hc' & _ & Ha). rewrite Hc in Hc'. injection Hc' as <-.
      rewrite Hrun in Ha. simpl in Ha. subst outcome. eexists. by split.
  - split.
    + intros (e & Hr & Hcode). destruct outcome as [ex | a]; [| done].
      exists c, ex. by rewrite Hrun.
    + intros (c' & ex & Hc' & _ & Ha). rewrite Hc in Hc'. injection Hc' as <-.
      rewrite Hrun in Ha. simpl in Ha. subst outcome. eexists. by split.
Qed.




(** *** More on the server *)

Local Abbreviation serves := (steps clock format_status).

Lemma world_lookup (s : Server Orch) k :
  claims_db (world s) !! k = bindings s !! k ≫= (fun a => heap s !! a).
Proof. apply lookup_omap. Qed.

Lemma world_lookup_bound (s : Server Orch) k a :
  bindings s !! k = Some a -> claims_db (world s) !! k = heap s !! a.
Proof. intros Hk. by rewrite world_lookup, Hk. Qed.

Lemma world_lookup_Some (s : Server Orch) k c :
  claims_db (world s) !! k = Some c ->
  exists a, bindings s !! k = Some a /\ heap s !! a = Some c.
Proof.
  rewrite world_lookup. destruct (bindings s !! k) as [a |]; [| done].
  intros Ha. by exists a.
Qed.

(** Every step, spelled out: either the state stays (and then the event is
    not an analyze request on an analyzable claim), or it is one of the three
    writing steps. *)
Lemma step_cases (s s' : Server Orch) ev :
  moves s ev s' ->
  (s' = s /\
   forall k c, ev = AnalyzeClaim k -> claims_db (world s) !! k = Some c ->
     ~ analyzable (Claim.status c)) \/
  (exists hex claim a,
     ev = SubmitClaim hex claim /\ heap s !! a = None /\
     s' = mkServer (<[a := submitted clock (reads s) hex claim]> (heap s))
            (<[submitted_id hex := a]> (bindings s))
            (S (S (reads s))) (engine s) (awaiting s)) \/
  (exists k a c,
     ev = AnalyzeClaim k /\ bindings s !! k = Some a /\
     heap s !! a = Some c /\ analyzable (Claim.status c) /\
     s' = mkServer (<[a := started (clock (reads s)) c]> (heap s))
            (bindings s) (S (reads s)) (engine s)
            (mkTask k a :: awaiting s)) \/
  (exists k a c outcome o aw1 aw2,
     ev = PipelineEnds k outcome o /\
     awaiting s = (aw1 ++ mkTask k a :: aw2)%list /\
     heap s !! a = Some c /\
     s' = mkServer (<[a := ended outcome (clock (reads s)) c]> (heap s))
            (bindings s) (S (reads s)) o (aw1 ++ aw2)%list).
Proof.
  intros Hstep.
  destruct Hstep as
    [ s a hex claim r w' c Hfresh Hsub Hnew
    | s cid r Hget
    | s r Hlist
    | s cid r Hres
    | s cid r Henter Hdone
    | s cid a submission w' c' Hbound Henter Hnew
    | s aw1 aw2 cid a c outcome o r w' c' Haw Hc Hresume Hnew ].
  - right. left. exists hex, claim, a.
    rewrite submit_runs in Hsub. injection Hsub as _ <-. simpl in *.
    rewrite lookup_insert_eq in Hnew. by injection Hnew as <-.
  - left. split; [done |]. intros k c [=].
  - left. split; [done |]. intros k c [=].
  - left. split; [done |]. intros k c [=].
  - left. split; [done |]. intros k c [= <-] Hc Hs.
    rewrite (enter_runs _ _ _ Hc Hs) in Henter. injection Henter as <- _.
    by destruct (Hdone (Claim.submission c)).
  - right. right. left.
    apply enter_cases in Henter
      as [(_ & [=] & _) | [(c & _ & _ & [=] & _) | (c & Hc & Hs & _ & ->)]].
    rewrite (world_lookup_bound _ _ _ Hbound) in Hc.
    simpl in Hnew. rewrite lookup_insert_eq in Hnew. injection Hnew as <-.
    by exists cid, a, c.
  - right. right. right.
    erewrite resume_stored in Hresume by apply lookup_singleton_eq.
    injection Hresume as _ <-. simpl in *.
    rewrite lookup_insert_eq in Hnew. injection Hnew as <-.
    by exists cid, a, c, outcome, o, aw1, aw2.
Qed.

Lemma validating_not_analyzable c :
  Claim.status c = ClaimStatus.VALIDATING -> ~ analyzable (Claim.status c).
Proof. intros ->. unfold analyzable. intuition discriminate. Qed.

Lemma step_keeps_well_formed (s s' : Server Orch) ev :
  well_formed s -> moves s ev s' -> well_formed s'.
Proof.
  intros (Hbound & Hnd & Hval) Hstep.
  destruct (step_cases s s' ev Hstep)
    as [[-> _]
       | [(hex & claim & a & _ & Hfresh & ->)
         | [(k & a & c & _ & Hk & Hc & Hs & ->)
           | (k & a & c & outcome & o & aw1 & aw2 & _ & Haw & Hc & ->)]]].
  - done.
  - split; [| split]; simpl.
    + intros k a' [[<- <-] | [Hne Hk]]%lookup_insert_Some.
      * eexists. by rewrite lookup_insert_eq.
      * destruct (Hbound k a' Hk) as (c & Hc & Hid). exists c. split; [| done].
        rewrite lookup_insert_ne; [done |]. intros Heq. congruence.
    + done.
    + intros t Hin. destruct (Hval t Hin) as (c & Hc & Hs). exists c.
      split; [| done]. rewrite lookup_insert_ne; [done |]. intros Heq. congruence.
  - assert (forall t, t ∈ awaiting s -> task_claim t <> a) as Hnew.
    { intros t Hin <-. destruct (Hval t Hin) as (c0 & Hc0 & Hs0 & _).
      assert (c0 = c) as -> by congruence.
      by apply (validating_not_analyzable c). }
    destruct (Hbound k a Hk) as (c1 & Hc1 & Hid1).
    assert (c1 = c) as -> by congruence.
    split; [| split]; simpl.
    + intros k' a' Hk'. destruct (Hbound k' a' Hk') as (c0 & Hc0 & Hid).
      destruct (decide (a' = a)) as [-> | Hne].
      * assert (c0 = c) as -> by congruence.
        eexists. by rewrite lookup_insert_eq.
      * exists c0. by rewrite lookup_insert_ne.
    + apply NoDup_cons. split; [| done].
      intros (t & Ht & Hin)%list_elem_of_fmap. simpl in Ht.
      by apply (Hnew t Hin).
    + intros t [-> | Hin]%elem_of_cons; simpl.
      * eexists. by rewrite lookup_insert_eq.
      * destruct (Hval t Hin) as (c0 & Hc0 & Hs0). exists c0. split; [| done].
        rewrite lookup_insert_ne; [done |]. intros Heq. by apply (Hnew t Hin).
  - rewrite Haw in Hnd, Hval.
    rewrite fmap_app, fmap_cons in Hnd. simpl in Hnd.
    apply NoDup_app in Hnd as (Hnd1 & Hsep & Hnd2).
    apply NoDup_cons in Hnd2 as [Hnot2 Hnd2].
    split; [| split]; simpl.
    + intros k' a' Hk'. destruct (Hbound k' a' Hk') as (c0 & Hc0 & Hid).
      destruct (decide (a' = a)) as [-> | Hne].
      * assert (c0 = c) as -> by congruence.
        eexists. by rewrite lookup_insert_eq.
      * exists c0. by rewrite lookup_insert_ne.
    + rewrite fmap_app. apply NoDup_app. split; [done |]. split; [| done].
      intros x Hx1 Hx2. apply (Hsep x Hx1). by right.
    + intros t Hin.
      assert (task_claim t <> a) as Hne.
      { intros <-. apply elem_of_app in Hin as [Hin | Hin].
        - apply (Hsep (task_claim t)); [by apply list_elem_of_fmap_2 | by left].
        - apply Hnot2. by apply list_elem_of_fmap_2. }
      destruct (Hval t) as (c0 & Hc0 & Hs0).
      { apply elem_of_app in Hin as [? | ?]; apply elem_of_app;
          [by left | right; by right]. }
      exists c0. split; [| done]. by rewrite lookup_insert_ne.
Qed.

Lemma reachable_well_formed (s : Server Orch) : reach s -> well_formed s.
Proof.
  induction 1 as [n o | s ev s' _ IH Hstep].
  - split; [| split]; simpl.
    + intros k a Hk. by rewrite lookup_empty in Hk.
    + apply NoDup_nil_2.
    + intros t Hin. by apply elem_of_nil in Hin.
  - by apply (step_keeps_well_formed s s' ev).
Qed.

(** The writing steps, and the skipped request, with the state they lead to
    written out. *)
Lemma step_submit_at (s : Server Orch) a hex claim :
  heap s !! a = None ->
  moves s (SubmitClaim hex claim)
    (mkServer (<[a := submitted clock (reads s) hex claim]> (heap s))
       (<[submitted_id hex := a]> (bindings s))
       (S (S (reads s))) (engine s) (awaiting s)).
Proof.
  intros Hfresh.
  apply (step_submit clock Orch format_status s a hex claim _ _
           (submitted clock (reads s) hex claim) Hfresh
           (submit_runs hex claim (world s))).
  simpl. apply lookup_insert_eq.
Qed.

Lemma step_await_at (s : Server Orch) k a c :
  bindings s !! k = Some a -> heap s !! a = Some c ->
  analyzable (Claim.status c) ->
  moves s (AnalyzeClaim k)
    (mkServer (<[a := started (clock (reads s)) c]> (heap s))
       (bindings s) (S (reads s)) (engine s) (mkTask k a :: awaiting s)).
Proof.
  intros Hk Hc Hs.
  assert (claims_db (world s) !! k = Some c) as Hview
    by (by rewrite (world_lookup_bound _ _ _ Hk)).
  apply (step_analyze_await clock Orch format_status s k a _ _
           (started (clock (reads s)) c) Hk
           (enter_runs (world s) k c Hview Hs)).
  simpl. apply lookup_insert_eq.
Qed.

Lemma step_skip_at (s : Server Orch) k c :
  claims_db (world s) !! k = Some c -> ~ analyzable (Claim.status c) ->
  moves s (AnalyzeClaim k) s.
Proof.
  intros Hview Hs.
  eapply (step_analyze_done clock Orch format_status s k);
    [by apply enter_skips with c | done].
Qed.

Lemma step_ends_at (s : Server Orch) aw1 aw2 k a c outcome o :
  awaiting s = (aw1 ++ mkTask k a :: aw2)%list -> heap s !! a = Some c ->
  moves s (PipelineEnds k outcome o)
    (mkServer (<[a := ended outcome (clock (reads s)) c]> (heap s))
       (bindings s) (S (reads s)) o (aw1 ++ aw2)%list).
Proof.
  intros Haw Hc.
  assert (claims_db (mkWorld {[ k := c ]} (reads s) o) !! k = Some c)
    as Hheld by (simpl; apply lookup_insert_eq).
  apply (step_pipeline_ends clock Orch format_status s aw1 aw2 k a c outcome o
           _ _ (ended outcome (clock (reads s)) c) Haw Hc
           (resume_stored _ k c outcome Hheld)).
  simpl. apply lookup_insert_eq.
Qed.

Lemma filter_none (P : Task -> Prop) `{!forall t, Decision (P t)}
    (l : list Task) :
  (forall t, t ∈ l -> ~ P t) -> filter P l = [].
Proof.
  induction l as [| t l IH]; intros Hnone; [done |].
  rewrite filter_cons. destruct (decide (P t)) as [Hp | _].
  - destruct (Hnone t); [by left | done].
  - apply IH. intros x Hx. apply Hnone. by right.
Qed.

Lemma runs_at_most_one (l : list Task) cid :
  NoDup (task_claim <$> l) ->
  (forall t1 t2, t1 ∈ l -> t2 ∈ l ->
     task_claim_id t1 = cid -> task_claim_id t2 = cid ->
     task_claim t1 = task_claim t2) ->
  (length (filter (fun t => task_claim_id t = cid) l) <= 1)%nat.
Proof.
  induction l as [| t l IH]; intros Hnd Hsame; [simpl; lia |].
  rewrite fmap_cons in Hnd. apply NoDup_cons in Hnd as [Hnot Hnd].
  rewrite filter_cons. destruct (decide (task_claim_id t = cid)) as [Ht | _].
  - rewrite filter_none; [simpl; lia |].
    intros x Hx Hid. apply Hnot.
    rewrite (Hsame t x); [by apply list_elem_of_fmap_2 | by left | by right
                         | done | done].
  - apply IH; [done |]. intros t1 t2 H1 H2. apply Hsame; by right.
Qed.

(** X22: one run per record.  Coroutines of one event loop interleave at
    the [await] only, so the status test of [analyze_claim] and its write of
    [validating] are one atomic step, and they guard the [Claim] object the
    identifier denotes.  In every state the server can reach: no [Claim]
    object has two runs in flight; while the object a run holds is still the
    one its identifier denotes, an analyze request on that identifier gets
    the "skipped" response and leaves the server exactly as it is; an
    identifier all of whose runs in flight hold the object it denotes has at
    most one run in flight; and an analyze request on a claim in [submitted]
    or [needs_info] (no run in flight holds its object then) proceeds, in
    one way only, to the [await] as the run of that object. *)
Theorem one_active_run_per_claim (s : Server Orch) :
  reach s ->
  NoDup (task_claim <$> awaiting s) /\
  (forall t, t ∈ awaiting s -> still_bound s t ->
     enter (task_claim_id t) (world s)
     = (Return (inl (skipped (task_claim_id t))), world s) /\
     forall s', moves s (AnalyzeClaim (task_claim_id t)) s' -> s' = s) /\
  (forall cid,
     (forall t, t ∈ active_runs s cid -> still_bound s t) ->
     (length (active_runs s cid) <= 1)%nat) /\
  (forall cid c,
     claims_db (world s) !! cid = Some c ->
     analyzable (Claim.status c) ->
     (forall t, t ∈ awaiting s -> bindings s !! cid <> Some (task_claim t)) /\
     exists a s',
       bindings s !! cid = Some a /\
       moves s (AnalyzeClaim cid) s' /\
       awaiting s' = mkTask cid a :: awaiting s /\
       forall s'', moves s (AnalyzeClaim cid) s'' -> s'' = s').
Proof.
  intros Hreach.
  destruct (reachable_well_formed s Hreach) as (Hbound & Hnd & Hval).
  split; [done |]. split; [| split].
  - intros t Hin Hb. unfold still_bound in Hb.
    destruct (Hval t Hin) as (c & Hc & Hs & _).
    assert (claims_db (world s) !! task_claim_id t = Some c) as Hview
      by (by rewrite (world_lookup_bound _ _ _ Hb)).
    pose proof (validating_not_analyzable c Hs) as Hno.
    split; [by apply enter_skips with c |].
    intros s' Hstep.
    destruct (step_cases s s' _ Hstep)
      as [[-> _]
         | [(hex & claim & a & [=] & _)
           | [(k & a & c0 & [= <-] & Hk & Hc0 & Hs0 & _)
             | (k & a & c0 & outcome & o & aw1 & aw2 & [=] & _)]]]; [done |].
    assert (a = task_claim t) as -> by congruence.
    assert (c0 = c) as -> by congruence. done.
  - intros cid Hall. unfold active_runs in *. apply runs_at_most_one; [done |].
    intros t1 t2 H1 H2 Hid1 Hid2.
    assert (still_bound s t1) as Hb1
      by (apply Hall; by apply list_elem_of_filter).
    assert (still_bound s t2) as Hb2
      by (apply Hall; by apply list_elem_of_filter).
    unfold still_bound in *. rewrite Hid1 in Hb1. rewrite Hid2 in Hb2. congruence.
  - intros cid c Hview Hs.
    destruct (world_lookup_Some s cid c Hview) as (a & Hk & Hc).
    split.
    { intros t Hin Heq. destruct (Hval t Hin) as (c0 & Hc0 & Hs0 & _).
      assert (task_claim t = a) as Ha by congruence. rewrite Ha in Hc0.
      assert (c0 = c) as -> by congruence.
      by apply (validating_not_analyzable c). }
    exists a. eexists. split; [done |]. split.
    { eapply step_analyze_await; [exact Hk | by apply enter_runs |].
      simpl. apply lookup_insert_eq. }
    split; [done |]. intros s'' Hstep.
    destruct (step_cases s s'' _ Hstep)
      as [[_ Hno]
         | [(hex & claim & a' & [=] & _)
           | [(k & a' & c0 & [= <-] & Hk' & Hc0 & Hs0 & ->)
             | (k & a' & c0 & outcome & o & aw1 & aw2 & [=] & _)]]].
    + by destruct (Hno cid c eq_refl Hview).
    + assert (a' = a) as -> by congruence.
      assert (c0 = c) as -> by congruence. done.
Qed.

Lemma status_move_same (ev : Event Orch) (s : Server Orch) a (o : option Claim.t) :
  status_move ev s a o o.
Proof. destruct o; [by left | done]. Qed.

Lemma visible_move_same (ev : Event Orch) k (o : option Claim.t) :
  visible_move ev k o o.
Proof. destruct o; [by left | done]. Qed.

Lemma step_status_move (s s' : Server Orch) ev a :
  well_formed s -> moves s ev s' ->
  status_move ev s a (heap s !! a) (heap s' !! a).
Proof.
  intros (Hbound & Hnd & Hval) Hstep.
  destruct (step_cases s s' ev Hstep)
    as [[-> _]
       | [(hex & claim & a0 & -> & Hfresh & ->)
         | [(k & a0 & c & -> & Hk & Hc & Hs & ->)
           | (k & a0 & c & outcome & o & aw1 & aw2 & -> & Haw & Hc & ->)]]];
    simpl.
  - apply status_move_same.
  - destruct (decide (a0 = a)) as [-> | Hne].
    + rewrite lookup_insert_eq, Hfresh. simpl. split; [| done].
      by exists hex, claim.
    + rewrite lookup_insert_ne by done. apply status_move_same.
  - destruct (decide (a0 = a)) as [-> | Hne].
    + rewrite lookup_insert_eq, Hc. simpl. right. left. by exists k.
    + rewrite lookup_insert_ne by done. apply status_move_same.
  - destruct (decide (a0 = a)) as [-> | Hne].
    + rewrite lookup_insert_eq, Hc. simpl. right. right.
      assert (mkTask k a ∈ awaiting s) as Hin.
      { rewrite Haw. apply elem_of_app. right. by left. }
      destruct (Hval _ Hin) as (c0 & Hc0 & Hs0 & _). simpl in Hc0.
      assert (c0 = c) as -> by congruence. by exists k, outcome, o.
    + rewrite lookup_insert_ne by done. apply status_move_same.
Qed.

Lemma step_binding_move (s s' : Server Orch) ev k :
  moves s ev s' -> binding_move ev s s' k.
Proof.
  intros Hstep.
  destruct (step_cases s s' ev Hstep)
    as [[-> _]
       | [(hex & claim & a0 & -> & Hfresh & ->)
         | [(k0 & a0 & c & -> & Hk & Hc & Hs & ->)
           | (k0 & a0 & c & outcome & o & aw1 & aw2 & -> & Haw & Hc & ->)]]];
    unfold binding_move; simpl; try (by left).
  destruct (decide (submitted_id hex = k)) as [<- | Hne].
  - right. exists hex, claim, a0. by rewrite lookup_insert_eq.
  - left. by rewrite lookup_insert_ne.
Qed.

Lemma step_visible_move (s s' : Server Orch) ev k :
  well_formed s -> moves s ev s' ->
  visible_move ev k (claims_db (world s) !! k) (claims_db (world s') !! k).
Proof.
  intros (Hbound & Hnd & Hval) Hstep.
  destruct (step_cases s s' ev Hstep)
    as [[-> _]
       | [(hex & claim & a0 & -> & Hfresh & ->)
         | [(k0 & a0 & c & -> & Hk & Hc & Hs & ->)
           | (k0 & a0 & c & outcome & o & aw1 & aw2 & -> & Haw & Hc & ->)]]].
  - apply visible_move_same.
  - rewrite !world_lookup. simpl.
    destruct (decide (submitted_id hex = k)) as [<- | Hne].
    + rewrite lookup_insert_eq. simpl. rewrite lookup_insert_eq.
      destruct (bindings s !! submitted_id hex ≫= _) as [c |]; simpl.
      * right. right. right. by exists hex, claim.
      * split; [| done]. by exists hex, claim.
    + rewrite lookup_insert_ne by done.
      destruct (bindings s !! k) as [a |] eqn:Hbk; simpl; [| done].
      destruct (Hbound k a Hbk) as (c & Hc & _).
      rewrite lookup_insert_ne by congruence. apply visible_move_same.
  - rewrite !world_lookup. simpl.
    destruct (bindings s !! k) as [a |] eqn:Hbk; simpl; [| done].
    destruct (decide (a0 = a)) as [-> | Hne].
    + rewrite lookup_insert_eq, Hc. simpl.
      destruct (Hbound k a Hbk) as (c1 & Hc1 & Hid1).
      destruct (Hbound k0 a Hk) as (c2 & Hc2 & Hid2).
      assert (k0 = k) as -> by congruence. right. by left.
    + rewrite lookup_insert_ne by done. apply visible_move_same.
  - rewrite !world_lookup. simpl.
    destruct (bindings s !! k) as [a |] eqn:Hbk; simpl; [| done].
    destruct (decide (a0 = a)) as [-> | Hne].
    + rewrite lookup_insert_eq, Hc. simpl.
      assert (mkTask k0 a ∈ awaiting s) as Hin.
      { rewrite Haw. apply elem_of_app. right. by left. }
      destruct (Hval _ Hin) as (c0 & Hc0 & Hs0 & Hid0). simpl in *.
      destruct (Hbound k a Hbk) as (c1 & Hc1 & Hid1).
      assert (c0 = c) as -> by congruence.
      assert (k0 = k) as -> by congruence.
      right. right. left. by exists outcome, o.
    + rewrite lookup_insert_ne by done. apply visible_move_same.
Qed.

(** C3, as the code has it: in every state the server can reach, one step
    moves the status of a [Claim] object in one of three ways only.  An
    analyze request takes [submitted] or [needs_info] to [validating]; the
    end of the pipeline run takes [validating] straight to the overall status
    of the returned analysis, or to [submitted] if the pipeline raised.  A
    new object starts [submitted], and no object goes away.  What an
    identifier denotes changes only when [submit_claim] binds its new object
    to it; so the status a reader sees under an identifier moves in these
    three ways, or becomes [submitted] because the identifier was drawn
    again. *)
Theorem status_moves_of_the_server (s s' : Server Orch) ev :
  reach s -> moves s ev s' ->
  (forall a, status_move ev s a (heap s !! a) (heap s' !! a)) /\
  (forall k, binding_move ev s s' k) /\
  (forall k,
     visible_move ev k (claims_db (world s) !! k) (claims_db (world s') !! k)).
Proof.
  intros Hreach Hstep.
  pose proof (reachable_well_formed s Hreach) as Hwf.
  split; [intros a; by apply step_status_move |].
  split; [intros k; by apply step_binding_move |].
  intros k. by apply step_visible_move.
Qed.

(** X11: [list_claims] lists every claim once.  When every record is stored
    under its own identifier, the identifiers in the response are pairwise
    distinct and are exactly the stored keys, and the entry of a stored claim
    carries the status, analysis and update time that [get_claim_status]
    reports for it. *)
Theorem list_has_each_claim_once w :
  keys_match (claims_db w) ->
  exists entries,
    list_claims w = (Return entries, w) /\
    NoDup (ClaimStatusResponse.claim_id <$> entries) /\
    (forall k, k ∈ ClaimStatusResponse.claim_id <$> entries <->
               is_Some (claims_db w !! k)) /\
    (forall k r, get_claim_status k w = (Return r, w) ->
       exists e, e ∈ entries /\
         ClaimStatusResponse.claim_id e = k /\
         ClaimStatusResponse.status e = ClaimStatusResponse.status r /\
         ClaimStatusResponse.analysis e = ClaimStatusResponse.analysis r /\
         ClaimStatusResponse.updated_at e = ClaimStatusResponse.updated_at r).
Proof.
  intros Hkeys. eexists. split; [reflexivity |].
  assert (ClaimStatusResponse.claim_id <$>
            (list_claims_entry <$> (map_to_list (claims_db w)).*2)
          = (map_to_list (claims_db w)).*1) as Hids.
  { rewrite <- !list_fmap_compose. apply list_fmap_ext.
    intros i [k c] Hi. simpl. apply Hkeys.
    apply elem_of_map_to_list. by apply list_elem_of_lookup_2 with i. }
  rewrite Hids. split; [apply NoDup_fst_map_to_list |]. split.
  - intros k. rewrite list_elem_of_fmap. split.
    + intros ([k' c] & -> & Hin). apply elem_of_map_to_list in Hin. by eexists.
    + intros [c Hc]. exists (k, c). split; [done |]. by apply elem_of_map_to_list.
  - intros k r Hget. unfold get_claim_status in Hget.
    destruct (claims_db w !! k) as [c |] eqn:Hc; [| discriminate Hget].
    injection Hget as <-. exists (list_claims_entry c). split.
    + apply list_elem_of_fmap. exists c. split; [done |].
      apply list_elem_of_fmap. exists (k, c). split; [done |].
      by apply elem_of_map_to_list.
    + simpl. split; [by apply Hkeys | done].
Qed.

Lemma well_formed_keys_match (s : Server Orch) :
  well_formed s -> keys_match (claims_db (world s)).
Proof.
  intros (Hbound & _) k c Hc.
  destruct (world_lookup_Some s k c Hc) as (a & Hk & Ha).
  destruct (Hbound k a Hk) as (c0 & Hc0 & Hid). congruence.
Qed.

(** X10: every record is found under its own identifier.  In every state
    the server can reach, also after [submit_claim] has drawn an identifier
    a second time, the [claim_id] of the record an identifier denotes is
    that identifier. *)
Theorem records_keep_their_key (s : Server Orch) :
  reach s -> keys_match (claims_db (world s)).
Proof.
  intros Hreach. apply well_formed_keys_match. by apply reachable_well_formed.
Qed.

Lemma settled_step (s s' : Server Orch) ev a c :
  heap s !! a = Some c ->
  ~ analyzable (Claim.status c) ->
  (forall t, t ∈ awaiting s -> task_claim t <> a) ->
  moves s ev s' ->
  heap s' !! a = Some c /\
  (forall t, t ∈ awaiting s' -> task_claim t <> a) /\
  (forall k, bindings s !! k = Some a ->
     bindings s' !! k = Some a \/
     exists hex claim, ev = SubmitClaim hex claim /\ submitted_id hex = k).
Proof.
  intros Hc Hs Hidle Hstep.
  destruct (step_cases s s' ev Hstep)
    as [[-> _]
       | [(hex & claim & a0 & -> & Hfresh & ->)
         | [(k0 & a0 & c0 & -> & Hk & Hc0 & Hs0 & ->)
           | (k0 & a0 & c0 & outcome & o & aw1 & aw2 & -> & Haw & Hc0 & ->)]]];
    simpl.
  - split; [done |]. split; [done |]. intros k Hk. by left.
  - split; [rewrite lookup_insert_ne; [done | congruence] |].
    split; [done |]. intros k Hk.
    destruct (decide (submitted_id hex = k)) as [Heq | Hne].
    + right. by exists hex, claim.
    + left. by rewrite lookup_insert_ne.
  - assert (a0 <> a) as Hne.
    { intros ->. assert (c0 = c) as -> by congruence. done. }
    split; [by rewrite lookup_insert_ne |]. split; [| intros k ?; by left].
    intros t [-> | Hin]%elem_of_cons; [done | by apply Hidle].
  - assert (a0 <> a) as Hne.
    { intros ->. apply (Hidle (mkTask k0 a)); [| done].
      rewrite Haw. apply elem_of_app. right. by left. }
    split; [by rewrite lookup_insert_ne |]. split; [| intros k ?; by left].
    intros t Hin. apply Hidle. rewrite Haw.
    apply elem_of_app in Hin as [? | ?]; apply elem_of_app;
      [by left | right; by right].
Qed.

Lemma settled_stays (s s' : Server Orch) evs a c :
  heap s !! a = Some c ->
  ~ analyzable (Claim.status c) ->
  (forall t, t ∈ awaiting s -> task_claim t <> a) ->
  serves s evs s' ->
  heap s' !! a = Some c /\
  (forall t, t ∈ awaiting s' -> task_claim t <> a) /\
  (forall k, bindings s !! k = Some a ->
     claims_db (world s') !! k = Some c \/
     exists hex claim, SubmitClaim hex claim ∈ evs /\ submitted_id hex = k).
Proof.
  intros Hc Hs Hidle Hrun. revert Hc Hidle.
  induction Hrun as [s | s ev s' evs s'' Hstep _ IH]; intros Hc Hidle.
  - split; [done |]. split; [done |]. intros k Hk. left.
    by rewrite (world_lookup_bound _ _ _ Hk).
  - destruct (settled_step s s' ev a c Hc Hs Hidle Hstep)
      as (Hc' & Hidle' & Hbind).
    destruct (IH Hc' Hidle') as (Hc'' & Hidle'' & Hrest).
    split; [done |]. split; [done |]. intros k Hk.
    destruct (Hbind k Hk) as [Hk' | (hex & claim & -> & Hid)].
    + destruct (Hrest k Hk') as [Hview | (hex & claim & Hin & Hid)];
        [by left |].
      right. exists hex, claim. split; [by right | done].
    + right. exists hex, claim. split; [by left | done].
Qed.

(** X12: a record that is neither analyzable nor being analyzed is settled
    for good.  If a [Claim] object has a status other than [submitted] and
    [needs_info] and no run in flight holds it (for instance a record left
    in [validating] by a run that never returned), then whatever sequence of
    events the server serves, the object stays exactly as it is and no run
    of it is ever started; and a reader of an identifier that denoted it
    still finds it, unchanged, unless one of the events was a submission
    that drew this identifier again. *)
Theorem settled_record_never_changes (s s' : Server Orch) evs a c :
  heap s !! a = Some c ->
  ~ analyzable (Claim.status c) ->
  (forall t, t ∈ awaiting s -> task_claim t <> a) ->
  serves s evs s' ->
  heap s' !! a = Some c /\
  (forall t, t ∈ awaiting s' -> task_claim t <> a) /\
  (forall k, bindings s !! k = Some a ->
     claims_db (world s') !! k = Some c \/
     exists hex claim, SubmitClaim hex claim ∈ evs /\ submitted_id hex = k).
Proof. apply settled_stays. Qed.

(** X13: [approved] and [rejected] are final.  In any state the server can
    reach, a record with one of these statuses is never changed again, in
    any field, by any sequence of events: a reader of its identifier finds
    it exactly as it was, unless one of the events was a submission that
    drew this identifier again (the reader then finds the new record). *)
Theorem finished_record_never_changes (s s' : Server Orch) evs k c :
  reach s ->
  claims_db (world s) !! k = Some c ->
  finished (Claim.status c) ->
  serves s evs s' ->
  claims_db (world s') !! k = Some c \/
  exists hex claim, SubmitClaim hex claim ∈ evs /\ submitted_id hex = k.
Proof.
  intros Hreach Hview Hfin Hrun.
  destruct (reachable_well_formed s Hreach) as (_ & _ & Hval).
  destruct (world_lookup_Some s k c Hview) as (a & Hk & Hc).
  destruct (settled_stays s s' evs a c) as (_ & _ & Hrest); [done | | | done |].
  - unfold finished, analyzable in *. destruct Hfin; intros []; congruence.
  - intros t Hin Heq. destruct (Hval t Hin) as (c0 & Hc0 & Hs0 & _).
    rewrite Heq in Hc0. assert (c0 = c) as -> by congruence.
    unfold finished in Hfin. destruct Hfin; congruence.
  - by apply Hrest.
Qed.


Lemma timely_step (s s' : Server Orch) ev :
  monotone clock -> timely clock s -> moves s ev s' ->
  timely clock s' /\
  forall a c, heap s !! a = Some c ->
    exists c', heap s' !! a = Some c' /\
      Claim.created_at c' = Claim.created_at c /\
      Claim.updated_at c <= Claim.updated_at c'.
Proof.
  intros Hmono Htimely Hstep.
  assert (forall a c, heap s !! a = Some c ->
            Claim.updated_at c <= clock (reads s)) as Hnow.
  { intros a c Hc. destruct (Htimely a c Hc) as (_ & i & Hi & Hup).
    etrans; [exact Hup |]. apply Hmono. lia. }
  destruct (step_cases s s' ev Hstep)
    as [[-> _]
       | [(hex & claim & a0 & -> & Hfresh & ->)
         | [(k0 & a0 & c0 & -> & Hk & Hc0 & Hs0 & ->)
           | (k0 & a0 & c0 & outcome & o & aw1 & aw2 & -> & Haw & Hc0 & ->)]]].
  - split; [done |]. intros a c Hc. exists c. split; [done |].
    split; [done | lia].
  - split.
    + intros a c'. simpl.
      intros [[<- <-] | [Hne Hc]]%lookup_insert_Some; simpl.
      * split; [apply Hmono; lia |]. exists (S (reads s)). split; [lia | lia].
      * destruct (Htimely a c' Hc) as (Hord & i & Hi & Hup).
        split; [done |]. exists i. split; [lia | done].
    + intros a c Hc. exists c. simpl.
      split; [rewrite lookup_insert_ne; [done | congruence] |].
      split; [done | lia].
  - destruct (Htimely a0 c0 Hc0) as (Hord0 & _).
    pose proof (Hnow a0 c0 Hc0) as Hup0.
    split.
    + intros a c'. simpl.
      intros [[<- <-] | [Hne Hc]]%lookup_insert_Some; simpl.
      * split; [lia |]. exists (reads s). split; [lia | lia].
      * destruct (Htimely a c' Hc) as (Hord & i & Hi & Hup).
        split; [done |]. exists i. split; [lia | done].
    + intros a c Hc. simpl. destruct (decide (a0 = a)) as [-> | Hne].
      * assert (c0 = c) as -> by congruence. eexists.
        split; [apply lookup_insert_eq |]. simpl. split; [done | lia].
      * exists c. split; [by rewrite lookup_insert_ne |]. split; [done | lia].
  - destruct (Htimely a0 c0 Hc0) as (Hord0 & _).
    pose proof (Hnow a0 c0 Hc0) as Hup0.
    split.
    + intros a c'. simpl.
      intros [[<- <-] | [Hne Hc]]%lookup_insert_Some; simpl.
      * split; [lia |]. exists (reads s). split; [lia | lia].
      * destruct (Htimely a c' Hc) as (Hord & i & Hi & Hup).
        split; [done |]. exists i. split; [lia | done].
    + intros a c Hc. simpl. destruct (decide (a0 = a)) as [-> | Hne].
      * assert (c0 = c) as -> by congruence. eexists.
        split; [apply lookup_insert_eq |]. simpl. split; [done | lia].
      * exists c. split; [by rewrite lookup_insert_ne |]. split; [done | lia].
Qed.

(** X15: timestamps stay in order when the clock does.  With a clock that
    never goes back, starting from a state where every record was created
    no later than it was updated and updated no later than a reading already
    taken (the empty server is one), any sequence of events leaves every
    record, and so every record a reader can find, with
    [created_at <= updated_at]; the [created_at] of a record never changes
    and its [updated_at] never goes back. *)
Theorem timestamps_stay_ordered (s s' : Server Orch) evs :
  monotone clock ->
  timely clock s ->
  serves s evs s' ->
  timely clock s' /\
  (forall k c', claims_db (world s') !! k = Some c' ->
     Claim.created_at c' <= Claim.updated_at c') /\
  (forall a c, heap s !! a = Some c ->
     exists c', heap s' !! a = Some c' /\
       Claim.created_at c' = Claim.created_at c /\
       Claim.updated_at c <= Claim.updated_at c').
Proof.
  intros Hmono Htimely Hrun.
  assert (timely clock s' /\
          forall a c, heap s !! a = Some c ->
            exists c', heap s' !! a = Some c' /\
              Claim.created_at c' = Claim.created_at c /\
              Claim.updated_at c <= Claim.updated_at c') as [Hfinal Hkept].
  { induction Hrun as [s | s ev s' evs s'' Hstep _ IH].
    - split; [done |]. intros a c Hc. exists c. split; [done |].
      split; [done | lia].
    - destruct (timely_step s s' ev Hmono Htimely Hstep) as [Htimely' Hone].
      destruct (IH Htimely') as [Hfinal Hrest]. split; [done |].
      intros a c Hc. destruct (Hone a c Hc) as (c1 & Hc1 & Hcr1 & Hup1).
      destruct (Hrest a c1 Hc1) as (c2 & Hc2 & Hcr2 & Hup2).
      exists c2. split; [done |]. split; [congruence | lia]. }
  split; [done |]. split; [| done].
  intros k c' Hview. destruct (world_lookup_Some s' k c' Hview) as (a & _ & Hc').
  by destruct (Hfinal a c' Hc').
Qed.

(** X21: a run in flight can always end, and it writes to the record it
    holds.  In any state the server can reach, for any run in flight and any
    outcome of the pipeline, the step that ends the run is possible; it
    leaves the record the run holds with the status and analysis the outcome
    dictates and the clock reading of that moment, leaves every other record
    and every identifier as it was, and takes this run, and no other, out of
    the runs in flight.  If the identifier still denotes the record, a
    reader finds the record so written; if the identifier has been drawn
    again since, no reader sees any change. *)
Theorem run_in_flight_can_end (s : Server Orch) t outcome o :
  reach s -> t ∈ awaiting s ->
  exists c s',
    heap s !! task_claim t = Some c /\
    moves s (PipelineEnds (task_claim_id t) outcome o) s' /\
    heap s' !! task_claim t = Some (ended outcome (clock (reads s)) c) /\
    (forall a, a <> task_claim t -> heap s' !! a = heap s !! a) /\
    bindings s' = bindings s /\
    (t ∉ awaiting s') /\
    (forall t', t' <> t -> t' ∈ awaiting s' <-> t' ∈ awaiting s) /\
    (still_bound s t ->
     claims_db (world s') !! task_claim_id t
     = Some (ended outcome (clock (reads s)) c)) /\
    (~ still_bound s t -> claims_db (world s') = claims_db (world s)).
Proof.
  intros Hreach Hin.
  destruct (reachable_well_formed s Hreach) as (Hbound & Hnd & Hval).
  destruct (Hval t Hin) as (c & Hc & Hs & Hid).
  apply list_elem_of_split in Hin as (aw1 & aw2 & Haw).
  destruct t as [cid a]. simpl in *.
  rewrite Haw in Hnd. rewrite fmap_app, fmap_cons in Hnd. simpl in Hnd.
  apply NoDup_app in Hnd as (_ & Hsep & Hnd2).
  apply NoDup_cons in Hnd2 as [Hnot2 _].
  exists c. eexists. split; [done |]. split.
  { eapply step_pipeline_ends; [exact Haw | exact Hc | |].
    - apply resume_stored. simpl. apply lookup_insert_eq.
    - simpl. apply lookup_insert_eq. }
  simpl. split; [apply lookup_insert_eq |].
  split; [intros a' Hne; by rewrite lookup_insert_ne |].
  split; [done |]. split; [| split; [| split]].
  - intros [Hin | Hin]%elem_of_app.
    + apply (Hsep a); [| by left].
      apply list_elem_of_fmap. by exists (mkTask cid a).
    + apply Hnot2. apply list_elem_of_fmap. by exists (mkTask cid a).
  - intros t' Hne. rewrite Haw, !elem_of_app, elem_of_cons. split.
    + intros [? | ?]; [by left | right; by right].
    + intros [? | [? | ?]]; [by left | done | by right].
  - intros Hb. unfold still_bound in Hb. simpl in Hb.
    rewrite lookup_omap, Hb. simpl. apply lookup_insert_eq.
  - intros Hdetached. unfold still_bound in Hdetached. simpl in Hdetached.
    apply map_eq. intros k. rewrite !lookup_omap.
    destruct (bindings s !! k) as [a' |] eqn:Hk; simpl; [| done].
    rewrite lookup_insert_ne; [done |]. intros <-.
    destruct (Hbound k a Hk) as (c1 & Hc1 & Hid1).
    assert (k = cid) as -> by congruence. done.
Qed.

(** X20: [submit_claim] does not look for the identifier it draws.  Two
    submissions whose hexadecimal strings agree on the first eight digits
    get the same identifier, and the second replaces the record of the
    first: the dictionary has the same keys after the second as after the
    first, and under the shared identifier it holds the second submission,
    freshly [submitted] and without analysis. *)
Theorem colliding_submission_replaces hex1 hex2 claim1 claim2 w :
  substring 0 8 hex1 = substring 0 8 hex2 ->
  let w1 := (submit_claim clock hex1 claim1 w).2 in
  let w2 := (submit_claim clock hex2 claim2 w1).2 in
  submitted_id hex2 = submitted_id hex1 /\
  claims_db w1 !! submitted_id hex1 =
    Some (Claim.mk (submitted_id hex1) claim1 ClaimStatus.SUBMITTED
            (clock (clock_reads w)) (clock (S (clock_reads w))) None) /\
  claims_db w2 !! submitted_id hex1 =
    Some (Claim.mk (submitted_id hex1) claim2 ClaimStatus.SUBMITTED
            (clock (S (S (clock_reads w)))) (clock (S (S (S (clock_reads w)))))
            None) /\
  dom (claims_db w2) = dom (claims_db w1) /\
  size (claims_db w2) = size (claims_db w1).
Proof.
  intros Hprefix. rewrite !submit_runs. simpl.
  assert (submitted_id hex2 = submitted_id hex1) as Hid
    by (unfold submitted_id; by rewrite Hprefix).
  rewrite Hid. split; [done |]. split; [apply lookup_insert_eq |].
  split; [apply lookup_insert_eq |].
  split; [by rewrite insert_insert_eq, !dom_insert_L |].
  by rewrite insert_insert_eq, <- !size_dom, !dom_insert_L.
Qed.

End Properties.

(** *** Identifiers, enumerations and configuration *)

Lemma ascii_upper_facts c :
  is_lower (ascii_upper c) = false /\
  ascii_upper (ascii_upper c) = ascii_upper c /\
  (is_hex_digit c = true -> is_upper_hex_digit (ascii_upper c) = true).
Proof.
  destruct c as [[] [] [] [] [] [] [] []]; vm_compute; done.
Qed.

Lemma length_upper s : String.length (upper s) = String.length s.
Proof. induction s as [| c s IH]; simpl; congruence. Qed.

Lemma length_prefix n s :
  String.length (substring 0 n s) = Nat.min n (String.length s).
Proof.
  revert s. induction n as [| n IH]; intros [| c s]; simpl; try done.
  by rewrite IH.
Qed.

Lemma length_prefixed t :
  String.length ("CLM-" +:+ t) = (4 + String.length t)%nat.
Proof. reflexivity. Qed.

Lemma every_char_prefix p n s :
  every_char p s = true -> every_char p (substring 0 n s) = true.
Proof.
  revert s. induction n as [| n IH]; intros [| c s]; simpl; try done.
  intros [Hc Hs]%andb_prop. rewrite Hc. simpl. by apply IH.
Qed.

Lemma upper_facts s :
  every_char (fun c => negb (is_lower c)) (upper s) = true /\
  upper (upper s) = upper s /\
  (every_char is_hex_digit s = true ->
   every_char is_upper_hex_digit (upper s) = true).
Proof.
  induction s as [| c s (IH1 & IH2 & IH3)]; simpl; [done |].
  destruct (ascii_upper_facts c) as (Hlow & Hidem & Hhex).
  rewrite Hlow, Hidem, IH1, IH2. simpl. split; [done |]. split; [done |].
  intros [Hc Hs]%andb_prop. by rewrite (Hhex Hc), (IH3 Hs).
Qed.

(** X17: the shape of a claim identifier.  It is "CLM-" followed by the
    first eight characters of the drawn string (all of them if there are
    fewer) in upper case: no character after the prefix is a lower-case
    letter, and if the drawn string is made of hexadecimal digits, as
    [uuid4().hex] is, the identifier is "CLM-" and upper-case hexadecimal
    digits, twelve characters in all when at least eight were drawn. *)
Theorem submitted_id_shape hex :
  exists t,
    submitted_id hex = "CLM-" +:+ t /\
    String.length t = Nat.min 8 (String.length hex) /\
    String.length (submitted_id hex) = (4 + Nat.min 8 (String.length hex))%nat /\
    every_char (fun c => negb (is_lower c)) t = true /\
    upper t = t /\
    (every_char is_hex_digit hex = true ->
     every_char is_upper_hex_digit t = true) /\
    ((8 <= String.length hex)%nat -> String.length (submitted_id hex) = 12%nat).
Proof.
  exists (upper (substring 0 8 hex)).
  assert (String.length (upper (substring 0 8 hex))
          = Nat.min 8 (String.length hex)) as Hlen
    by (by rewrite length_upper, length_prefix).
  destruct (upper_facts (substring 0 8 hex)) as (Hlow & Hidem & Hhex).
  split; [done |]. split; [done |].
  split; [unfold submitted_id; by rewrite length_prefixed, Hlen |].
  split; [done |]. split; [done |].
  split; [intros Hall; by apply Hhex, every_char_prefix |].
  intros Hlong. unfold submitted_id. rewrite length_prefixed, Hlen. lia.
Qed.

(** X18: the members of each enumeration have pairwise distinct values, so
    comparing two members by their string values (as [==] and [in] on a
    [str]-mixin [Enum] do) is comparing the members. *)
Theorem enum_values_are_distinct :
  (forall a b : ClaimStatus.t,
     ClaimStatus.value a = ClaimStatus.value b <-> a = b) /\
  (forall a b : ClaimType.t,
     ClaimType.value a = ClaimType.value b <-> a = b).
Proof.
  split; intros a b; (split; [| by intros ->]);
    destruct a, b; simpl; intros Heq; try reflexivity; discriminate Heq.
Qed.

Lemma split_nonempty sep s : split sep s <> [].
Proof.
  destruct s as [| c s]; simpl; [done |].
  destruct (Ascii.eqb c sep); [done |]. by destruct (split sep s).
Qed.

Lemma split_facts sep s :
  length (split sep s) = S (occurrences sep s) /\
  Forall (fun piece => occurrences sep piece = 0%nat) (split sep s) /\
  String.concat (String sep EmptyString) (split sep s) = s.
Proof.
  induction s as [| c s (IHlen & IHall & IHjoin)]; simpl.
  - split; [done |]. split; [| done]. by apply Forall_cons.
  - destruct (Ascii.eqb c sep) eqn:Hc.
    + apply Ascii.eqb_eq in Hc as ->. simpl. split; [by rewrite IHlen |].
      split; [by apply Forall_cons |].
      pose proof (split_nonempty sep s) as Hne.
      destruct (split sep s) as [| piece pieces]; [done |].
      by rewrite <- IHjoin.
    + destruct (split sep s) as [| piece pieces] eqn:Hsplit.
      { by destruct (split_nonempty sep s). }
      simpl in *. split; [done |]. split.
      * apply Forall_cons in IHall as [Hpiece Hrest]. apply Forall_cons.
        split; [| done]. simpl. by rewrite Hc, Hpiece.
      * destruct pieces; simpl in *; by rewrite <- IHjoin.
Qed.

(** X19: the CORS origins are the comma-separated pieces of the setting.
    [allow_origins] is never the empty list (an empty setting gives one
    empty origin), has one origin more than the setting has commas, no
    origin contains a comma, and joining the origins with commas gives the
    setting back. *)
Theorem allow_origins_pieces settings :
  allow_origins settings <> [] /\
  length (allow_origins settings)
  = S (occurrences "," (Settings.cors_origins settings)) /\
  Forall (fun origin => occurrences "," origin = 0%nat) (allow_origins settings) /\
  String.concat "," (allow_origins settings) = Settings.cors_origins settings /\
  (Settings.cors_origins settings = "" -> allow_origins settings = [""]).
Proof.
  unfold allow_origins.
  destruct (split_facts "," (Settings.cors_origins settings))
    as (Hlen & Hall & Hjoin).
  split; [apply split_nonempty |]. split; [done |]. split; [done |].
  split; [done |]. by intros ->.
Qed.

(** The origins of the settings as shipped. *)
Example default_allow_origins key :
  allow_origins (Settings.defaults key)
  = ["http://localhost:3000"; "http://localhost:3001"].
Proof. reflexivity. Qed.

(** ** The statements on the sample data *)

Lemma analyze_skipped_without_change_witness :
  analyze_claim sample_clock approving_pipeline ClaimStatus.value "CLM-0001"
    (sample_world (sample_claim ClaimStatus.REJECTED None))
  = (Return (skipped "CLM-0001"),
     sample_world (sample_claim ClaimStatus.REJECTED None)) /\
  AnalysisTriggerResponse.status (skipped "CLM-0001") = "skipped".
Proof.
  apply (analyze_skipped_without_change sample_clock approving_pipeline
           ClaimStatus.value _ "CLM-0001"
           (sample_claim ClaimStatus.REJECTED None)).
  - reflexivity.
  - discriminate.
  - discriminate.
Defined.


Lemma analyze_failure_resets_to_submitted_witness :
  analyze_claim sample_clock failing_pipeline ClaimStatus.value "CLM-0001"
    (sample_world (sample_claim ClaimStatus.NEEDS_INFO None))
  = (Raise (HTTPException.mk 500
              ("Analysis failed: " +:+ "model endpoint unreachable")),
     mkWorld
       (<["CLM-0001" := Claim.mk "CLM-0001" sample_submission
                          ClaimStatus.SUBMITTED 100 (sample_clock 1) None]>
          (claims_db (sample_world (sample_claim ClaimStatus.NEEDS_INFO None))))
       2%nat tt).
Proof.
  apply (analyze_failure_resets_to_submitted sample_clock failing_pipeline
           ClaimStatus.value
           (sample_world (sample_claim ClaimStatus.NEEDS_INFO None)) "CLM-0001"
           (sample_claim ClaimStatus.NEEDS_INFO None)
           (Exc "model endpoint unreachable") tt).
  - reflexivity.
  - right. reflexivity.
  - reflexivity.
Defined.

(** Against C2 as stated: the sample claim waits in [needs_info]; the
    pipeline raises; the request raises 500 and the stored record is no longer
    the one last persisted: its status is now [submitted] and its
    [updated_at] has moved from 100 to 1001. *)
Lemma failed_run_rewrites_needs_info_claim :
  claims_db (sample_world (sample_claim ClaimStatus.NEEDS_INFO None)) !! "CLM-0001"
  = Some (Claim.mk "CLM-0001" sample_submission ClaimStatus.NEEDS_INFO
            100 100 None) /\
  failing_pipeline tt sample_submission "CLM-0001"
  = (inl (Exc "model endpoint unreachable"), tt) /\
  analyze_claim sample_clock failing_pipeline ClaimStatus.value "CLM-0001"
    (sample_world (sample_claim ClaimStatus.NEEDS_INFO None))
  = (Raise (HTTPException.mk 500 "Analysis failed: model endpoint unreachable"),
     sample_failed) /\
  claims_db sample_failed !! "CLM-0001"
  = Some (Claim.mk "CLM-0001" sample_submission ClaimStatus.SUBMITTED
            100 1001 None) /\
  Claim.status <$> claims_db sample_failed !! "CLM-0001"
  <> Claim.status <$>
       claims_db (sample_world (sample_claim ClaimStatus.NEEDS_INFO None))
         !! "CLM-0001".
Proof. repeat split; try (vm_compute; reflexivity). vm_compute. discriminate. Qed.




Lemma unknown_claim_is_not_found_witness :
  get_claim_status "CLM-9999" (sample_world (sample_claim ClaimStatus.SUBMITTED None))
  = (Raise (HTTPException.mk 404 ("Claim " +:+ "CLM-9999" +:+ " not found")),
     sample_world (sample_claim ClaimStatus.SUBMITTED None)) /\
  analyze_claim sample_clock approving_pipeline ClaimStatus.value "CLM-9999"
    (sample_world (sample_claim ClaimStatus.SUBMITTED None))
  = (Raise (HTTPException.mk 404 ("Claim " +:+ "CLM-9999" +:+ " not found")),
     sample_world (sample_claim ClaimStatus.SUBMITTED None)) /\
  get_analysis_results "CLM-9999"
    (sample_world (sample_claim ClaimStatus.SUBMITTED None))
  = (Raise (HTTPException.mk 404 ("Claim " +:+ "CLM-9999" +:+ " not found")),
     sample_world (sample_claim ClaimStatus.SUBMITTED None)).
Proof.
  apply (unknown_claim_is_not_found sample_clock approving_pipeline
           ClaimStatus.value
           (sample_world (sample_claim ClaimStatus.SUBMITTED None)) "CLM-9999").
  reflexivity.
Defined.

Lemma results_before_analysis_witness :
  get_analysis_results "CLM-0001"
    (sample_world (sample_claim ClaimStatus.SUBMITTED None))
  = (Return [ ("claim_id", RStr "CLM-0001");
              ("status", RStatus ClaimStatus.SUBMITTED);
              ("message",
               RStr "Analysis not yet completed. Please trigger analysis first.") ],
     sample_world (sample_claim ClaimStatus.SUBMITTED None)).
Proof.
  apply (results_before_analysis
           (sample_world (sample_claim ClaimStatus.SUBMITTED None)) "CLM-0001"
           (sample_claim ClaimStatus.SUBMITTED None)).
  - reflexivity.
  - reflexivity.
Defined.

Lemma list_progress_against_status_progress_witness :
  exists entries,
    list_claims (sample_world (sample_claim ClaimStatus.SUBMITTED None))
    = (Return entries, sample_world (sample_claim ClaimStatus.SUBMITTED None)) /\
    length entries
    = size (claims_db (sample_world (sample_claim ClaimStatus.SUBMITTED None))) /\
    (forall e, e ∈ entries <->
       exists k c',
         claims_db (sample_world (sample_claim ClaimStatus.SUBMITTED None)) !! k
         = Some c' /\
         e = list_claims_entry c') /\
    list_claims_entry (sample_claim ClaimStatus.SUBMITTED None) ∈ entries /\
    ClaimStatusResponse.claim_id
      (list_claims_entry (sample_claim ClaimStatus.SUBMITTED None)) = "CLM-0001" /\
    ClaimStatusResponse.status
      (list_claims_entry (sample_claim ClaimStatus.SUBMITTED None))
    = ClaimStatus.SUBMITTED /\
    (finished ClaimStatus.SUBMITTED <->
       ClaimStatusResponse.progress_percentage
         (list_claims_entry (sample_claim ClaimStatus.SUBMITTED None)) = 100 /\
       ClaimStatusResponse.current_step
         (list_claims_entry (sample_claim ClaimStatus.SUBMITTED None)) = "Complete") /\
    (~ finished ClaimStatus.SUBMITTED <->
       ClaimStatusResponse.progress_percentage
         (list_claims_entry (sample_claim ClaimStatus.SUBMITTED None)) = 50 /\
       ClaimStatusResponse.current_step
         (list_claims_entry (sample_claim ClaimStatus.SUBMITTED None)) = "Processing") /\
    (exists r,
       get_claim_status "CLM-0001"
         (sample_world (sample_claim ClaimStatus.SUBMITTED None))
       = (Return r, sample_world (sample_claim ClaimStatus.SUBMITTED None)) /\
       ClaimStatusResponse.status r = ClaimStatus.SUBMITTED /\
       ClaimStatusResponse.progress_percentage r = 10 /\
       (~ finished ClaimStatus.SUBMITTED ->
        ClaimStatus.SUBMITTED <> ClaimStatus.NEEDS_INFO ->
        ClaimStatusResponse.progress_percentage r <>
          ClaimStatusResponse.progress_percentage
            (list_claims_entry (sample_claim ClaimStatus.SUBMITTED None)))).
Proof.
  apply (list_progress_against_status_progress
           (sample_world (sample_claim ClaimStatus.SUBMITTED None)) "CLM-0001"
           (sample_claim ClaimStatus.SUBMITTED None)).
  reflexivity.
Defined.

(** The two read operations on the sample claim in [submitted]: 10 against
    50. *)
Example submitted_progress_10_against_50 :
  (get_claim_status "CLM-0001"
     (sample_world (sample_claim ClaimStatus.SUBMITTED None))).1
  = Return (ClaimStatusResponse.mk "CLM-0001" ClaimStatus.SUBMITTED
              "Claim received and queued" 10 None 100) /\
  (list_claims (sample_world (sample_claim ClaimStatus.SUBMITTED None))).1
  = Return [ClaimStatusResponse.mk "CLM-0001" ClaimStatus.SUBMITTED
              "Processing" 50 None 100].
Proof. split; vm_compute; reflexivity. Qed.

(** The sample states are states of the server, each one step from the one
    before. *)
Lemma sample_submit_step :
  step sample_clock ClaimStatus.value server_start
    (SubmitClaim sample_hex sample_submission) server_submitted.
Proof.
  apply (step_submit_at sample_clock ClaimStatus.value server_start 0%nat
           sample_hex sample_submission).
  reflexivity.
Qed.

Lemma sample_analyze_step :
  step sample_clock ClaimStatus.value server_submitted
    (AnalyzeClaim sample_id) server_analyzing.
Proof.
  apply (step_await_at sample_clock ClaimStatus.value server_submitted
           sample_id 0%nat
           sample_record).
  - vm_compute. reflexivity.
  - vm_compute. reflexivity.
  - by left.
Qed.

Lemma sample_fail_step :
  step sample_clock ClaimStatus.value server_analyzing
    (PipelineEnds sample_id (inl unreachable) tt) server_failed.
Proof.
  apply (step_ends_at sample_clock ClaimStatus.value server_analyzing
           [] [] sample_id 0%nat
           sample_record_started
           (inl unreachable) tt).
  - reflexivity.
  - vm_compute. reflexivity.
Qed.

Lemma sample_approve_step :
  step sample_clock ClaimStatus.value server_analyzing
    (PipelineEnds sample_id (inr (sample_analysis ClaimStatus.APPROVED)) tt)
    server_approved.
Proof.
  apply (step_ends_at sample_clock ClaimStatus.value server_analyzing
           [] [] sample_id 0%nat
           sample_record_started
           (inr (sample_analysis ClaimStatus.APPROVED)) tt).
  - reflexivity.
  - vm_compute. reflexivity.
Qed.

Lemma sample_rebind_step :
  step sample_clock ClaimStatus.value server_analyzing
    (SubmitClaim colliding_hex sample_submission) server_rebound.
Proof.
  apply (step_submit_at sample_clock ClaimStatus.value server_analyzing 1%nat
           colliding_hex sample_submission).
  vm_compute. reflexivity.
Qed.

Lemma sample_second_analyze_step :
  step sample_clock ClaimStatus.value server_rebound
    (AnalyzeClaim sample_id) server_two_runs.
Proof.
  apply (step_await_at sample_clock ClaimStatus.value server_rebound
           sample_id 1%nat
           second_record).
  - vm_compute. reflexivity.
  - vm_compute. reflexivity.
  - by left.
Qed.

Lemma server_analyzing_reachable :
  reachable sample_clock ClaimStatus.value server_analyzing.
Proof.
  eapply reachable_step; [| exact sample_analyze_step].
  eapply reachable_step; [| exact sample_submit_step].
  apply reachable_start.
Qed.

Lemma server_approved_reachable :
  reachable sample_clock ClaimStatus.value server_approved.
Proof.
  eapply reachable_step; [| exact sample_approve_step].
  exact server_analyzing_reachable.
Qed.

Lemma server_two_runs_reachable :
  reachable sample_clock ClaimStatus.value server_two_runs.
Proof.
  eapply reachable_step; [| exact sample_second_analyze_step].
  eapply reachable_step; [| exact sample_rebind_step].
  exact server_analyzing_reachable.
Qed.

Lemma status_moves_of_the_server_witness :
  (forall a,
     status_move (PipelineEnds sample_id (inl unreachable) tt)
       server_analyzing a
       (heap server_analyzing !! a) (heap server_failed !! a)) /\
  (forall k,
     binding_move (PipelineEnds sample_id (inl unreachable) tt)
       server_analyzing server_failed k) /\
  (forall k,
     visible_move (PipelineEnds sample_id (inl unreachable) tt) k
       (claims_db (world server_analyzing) !! k)
       (claims_db (world server_failed) !! k)).
Proof.
  apply (status_moves_of_the_server sample_clock ClaimStatus.value
           server_analyzing server_failed
           (PipelineEnds sample_id (inl unreachable) tt)).
  - exact server_analyzing_reachable.
  - exact sample_fail_step.
Defined.

(** Against C3 as stated: the sample claim is submitted and its analysis
    requested; the pipeline raises, and the handler moves the status from
    [validating] to [submitted], which is no edge of the transition table
    (nor a re-entry into [validating]). *)
Lemma failed_run_moves_off_the_table :
  reachable sample_clock ClaimStatus.value server_analyzing /\
  step sample_clock ClaimStatus.value server_analyzing
    (PipelineEnds sample_id (inl unreachable) tt) server_failed /\
  Claim.status <$> claims_db (world server_analyzing) !! sample_id
  = Some ClaimStatus.VALIDATING /\
  Claim.status <$> claims_db (world server_failed) !! sample_id
  = Some ClaimStatus.SUBMITTED /\
  spec_edge ClaimStatus.VALIDATING ClaimStatus.SUBMITTED = false.
Proof.
  split; [exact server_analyzing_reachable |].
  split; [exact sample_fail_step |].
  repeat split; vm_compute; reflexivity.
Qed.

(** C8, at the input on which the code departs from it.  [submit_claim]
    keeps eight digits of the UUID and does not look whether the identifier
    is taken.  The sample claim is submitted and its analysis requested;
    while that run is suspended at the [await], a second submission draws
    the same identifier and its analysis is requested too.  The second
    request finds the new record, which is [submitted], and is not skipped:
    it proceeds to the [await], and two runs are in flight for one
    identifier, each holding its own record. *)
Theorem two_runs_for_one_identifier :
  submitted_id colliding_hex = submitted_id sample_hex /\
  steps sample_clock ClaimStatus.value server_start
    [SubmitClaim sample_hex sample_submission;
     AnalyzeClaim sample_id;
     SubmitClaim colliding_hex sample_submission;
     AnalyzeClaim sample_id]
    server_two_runs /\
  (analyze_claim_enter sample_clock sample_id (world server_analyzing)).1
  = Return (inl (skipped sample_id)) /\
  (analyze_claim_enter sample_clock sample_id (world server_rebound)).1
  = Return (inr sample_submission) /\
  active_runs server_two_runs sample_id
  = [mkTask sample_id 1%nat; mkTask sample_id 0%nat] /\
  Claim.status <$> heap server_two_runs !! 0%nat
  = Some ClaimStatus.VALIDATING /\
  Claim.status <$> heap server_two_runs !! 1%nat
  = Some ClaimStatus.VALIDATING.
Proof.
  split; [reflexivity |]. split.
  { eapply steps_cons; [exact sample_submit_step |].
    eapply steps_cons; [exact sample_analyze_step |].
    eapply steps_cons; [exact sample_rebind_step |].
    eapply steps_cons; [exact sample_second_analyze_step |].
    apply steps_nil. }
  repeat split; vm_compute; reflexivity.
Qed.

(** ** The further statements on the sample data *)

Lemma status_progress_in_range_witness :
  exists r,
    get_claim_status "CLM-0001"
      (sample_world (sample_claim ClaimStatus.POLICY_CHECK None))
    = (Return r, sample_world (sample_claim ClaimStatus.POLICY_CHECK None)) /\
    ClaimStatusResponse.claim_id r = "CLM-0001" /\
    ClaimStatusResponse.status r = ClaimStatus.POLICY_CHECK /\
    ClaimStatusResponse.analysis r = None /\
    ClaimStatusResponse.updated_at r = 100 /\
    10 <= ClaimStatusResponse.progress_percentage r <= 100 /\
    (ClaimStatusResponse.progress_percentage r = 100 <->
     finished ClaimStatus.POLICY_CHECK) /\
    ClaimStatusResponse.current_step r <> "Processing".
Proof.
  apply (status_progress_in_range
           (sample_world (sample_claim ClaimStatus.POLICY_CHECK None))
           "CLM-0001" (sample_claim ClaimStatus.POLICY_CHECK None)).
  reflexivity.
Defined.




Lemma sample_keys_match s a :
  keys_match (claims_db (sample_world (sample_claim s a))).
Proof.
  intros k c Hc. simpl in Hc. by apply lookup_singleton_Some in Hc as [<- <-].
Qed.

Lemma sample_clock_monotone : monotone sample_clock.
Proof. intros i j Hij. unfold sample_clock. lia. Qed.

Lemma sample_served_twice :
  steps sample_clock ClaimStatus.value server_approved
    [AnalyzeClaim sample_id] server_approved.
Proof.
  eapply steps_cons; [| apply steps_nil].
  apply (step_skip_at sample_clock ClaimStatus.value server_approved
           sample_id sample_record_approved).
  - vm_compute. reflexivity.
  - intros [H | H]; discriminate H.
Qed.

Lemma sample_failed_run_served :
  steps sample_clock ClaimStatus.value server_start
    [SubmitClaim sample_hex sample_submission;
     AnalyzeClaim sample_id;
     PipelineEnds sample_id (inl unreachable) tt]
    server_failed.
Proof.
  eapply steps_cons; [exact sample_submit_step |].
  eapply steps_cons; [exact sample_analyze_step |].
  eapply steps_cons; [exact sample_fail_step |].
  apply steps_nil.
Qed.

Lemma server_start_timely : timely sample_clock server_start.
Proof. intros a c Hc. simpl in Hc. by rewrite lookup_empty in Hc. Qed.

Lemma records_keep_their_key_witness :
  keys_match (claims_db (world server_two_runs)).
Proof.
  apply (records_keep_their_key sample_clock ClaimStatus.value server_two_runs).
  exact server_two_runs_reachable.
Defined.

Lemma settled_record_never_changes_witness :
  heap server_approved !! 0%nat = Some sample_record_approved /\
  (forall t, t ∈ awaiting server_approved -> task_claim t <> 0%nat) /\
  (forall k, bindings server_approved !! k = Some 0%nat ->
     claims_db (world server_approved) !! k = Some sample_record_approved \/
     exists hex claim,
       SubmitClaim hex claim ∈ [AnalyzeClaim (Orch := unit) sample_id] /\
       submitted_id hex = k).
Proof.
  apply (settled_record_never_changes sample_clock ClaimStatus.value
           server_approved server_approved [AnalyzeClaim sample_id]
           0%nat sample_record_approved).
  - vm_compute. reflexivity.
  - intros [H | H]; discriminate H.
  - intros t Hin. simpl in Hin. by apply elem_of_nil in Hin.
  - exact sample_served_twice.
Defined.

Lemma finished_record_never_changes_witness :
  claims_db (world server_approved) !! sample_id = Some sample_record_approved \/
  exists hex claim,
    SubmitClaim hex claim ∈ [AnalyzeClaim (Orch := unit) sample_id] /\
    submitted_id hex = sample_id.
Proof.
  apply (finished_record_never_changes sample_clock ClaimStatus.value
           server_approved server_approved [AnalyzeClaim sample_id]
           sample_id sample_record_approved).
  - exact server_approved_reachable.
  - vm_compute. reflexivity.
  - by left.
  - exact sample_served_twice.
Defined.


Lemma timestamps_stay_ordered_witness :
  timely sample_clock server_failed /\
  (forall k c', claims_db (world server_failed) !! k = Some c' ->
     Claim.created_at c' <= Claim.updated_at c') /\
  (forall a c, heap server_start !! a = Some c ->
     exists c', heap server_failed !! a = Some c' /\
       Claim.created_at c' = Claim.created_at c /\
       Claim.updated_at c <= Claim.updated_at c').
Proof.
  apply (timestamps_stay_ordered sample_clock ClaimStatus.value
           server_start server_failed
           [SubmitClaim sample_hex sample_submission;
            AnalyzeClaim sample_id;
            PipelineEnds sample_id (inl unreachable) tt]).
  - exact sample_clock_monotone.
  - exact server_start_timely.
  - exact sample_failed_run_served.
Defined.

Lemma list_has_each_claim_once_witness :
  exists entries,
    list_claims (sample_world (sample_claim ClaimStatus.SUBMITTED None))
    = (Return entries, sample_world (sample_claim ClaimStatus.SUBMITTED None)) /\
    NoDup (ClaimStatusResponse.claim_id <$> entries) /\
    (forall k, k ∈ ClaimStatusResponse.claim_id <$> entries <->
       is_Some (claims_db (sample_world (sample_claim ClaimStatus.SUBMITTED None))
                  !! k)) /\
    (forall k r,
       get_claim_status k (sample_world (sample_claim ClaimStatus.SUBMITTED None))
       = (Return r, sample_world (sample_claim ClaimStatus.SUBMITTED None)) ->
       exists e, e ∈ entries /\
         ClaimStatusResponse.claim_id e = k /\
         ClaimStatusResponse.status e = ClaimStatusResponse.status r /\
         ClaimStatusResponse.analysis e = ClaimStatusResponse.analysis r /\
         ClaimStatusResponse.updated_at e = ClaimStatusResponse.updated_at r).
Proof.
  apply (list_has_each_claim_once
           (sample_world (sample_claim ClaimStatus.SUBMITTED None))).
  exact (sample_keys_match ClaimStatus.SUBMITTED None).
Defined.

Lemma run_in_flight_can_end_witness :
  exists c s',
    heap server_two_runs !! task_claim (mkTask sample_id 0%nat) = Some c /\
    step sample_clock ClaimStatus.value server_two_runs
      (PipelineEnds (task_claim_id (mkTask sample_id 0%nat))
         (inr (sample_analysis ClaimStatus.APPROVED)) tt) s' /\
    heap s' !! task_claim (mkTask sample_id 0%nat)
    = Some (ended (inr (sample_analysis ClaimStatus.APPROVED))
              (sample_clock (reads server_two_runs)) c) /\
    (forall a, a <> task_claim (mkTask sample_id 0%nat) ->
       heap s' !! a = heap server_two_runs !! a) /\
    bindings s' = bindings server_two_runs /\
    (mkTask sample_id 0%nat ∉ awaiting s') /\
    (forall t', t' <> mkTask sample_id 0%nat ->
       t' ∈ awaiting s' <-> t' ∈ awaiting server_two_runs) /\
    (still_bound server_two_runs (mkTask sample_id 0%nat) ->
     claims_db (world s') !! task_claim_id (mkTask sample_id 0%nat)
     = Some (ended (inr (sample_analysis ClaimStatus.APPROVED))
               (sample_clock (reads server_two_runs)) c)) /\
    (~ still_bound server_two_runs (mkTask sample_id 0%nat) ->
     claims_db (world s') = claims_db (world server_two_runs)).
Proof.
  apply (run_in_flight_can_end sample_clock ClaimStatus.value
           server_two_runs (mkTask sample_id 0%nat)
           (inr (sample_analysis ClaimStatus.APPROVED)) tt).
  - exact server_two_runs_reachable.
  - simpl. apply elem_of_cons. right. apply elem_of_cons. by left.
Defined.

Lemma one_active_run_per_claim_witness :
  NoDup (task_claim <$> awaiting server_analyzing) /\
  (forall t, t ∈ awaiting server_analyzing -> still_bound server_analyzing t ->
     analyze_claim_enter sample_clock (task_claim_id t) (world server_analyzing)
     = (Return (inl (skipped (task_claim_id t))), world server_analyzing) /\
     forall s',
       step sample_clock ClaimStatus.value server_analyzing
         (AnalyzeClaim (task_claim_id t)) s' ->
       s' = server_analyzing) /\
  (forall cid,
     (forall t, t ∈ active_runs server_analyzing cid ->
        still_bound server_analyzing t) ->
     (length (active_runs server_analyzing cid) <= 1)%nat) /\
  (forall cid c,
     claims_db (world server_analyzing) !! cid = Some c ->
     analyzable (Claim.status c) ->
     (forall t, t ∈ awaiting server_analyzing ->
        bindings server_analyzing !! cid <> Some (task_claim t)) /\
     exists a s',
       bindings server_analyzing !! cid = Some a /\
       step sample_clock ClaimStatus.value server_analyzing
         (AnalyzeClaim cid) s' /\
       awaiting s' = mkTask cid a :: awaiting server_analyzing /\
       forall s'',
         step sample_clock ClaimStatus.value server_analyzing
           (AnalyzeClaim cid) s'' ->
         s'' = s').
Proof.
  apply (one_active_run_per_claim sample_clock ClaimStatus.value
           server_analyzing).
  exact server_analyzing_reachable.
Defined.

Lemma colliding_submission_replaces_witness :
  submitted_id "3f2a9c1bffffffffffffffffffffffff" = submitted_id sample_hex /\
  claims_db
    (submit_claim sample_clock sample_hex sample_submission empty_world).2
    !! submitted_id sample_hex
  = Some (Claim.mk (submitted_id sample_hex) sample_submission
            ClaimStatus.SUBMITTED (sample_clock 0) (sample_clock 1) None) /\
  claims_db
    (submit_claim sample_clock "3f2a9c1bffffffffffffffffffffffff"
       sample_submission
       (submit_claim sample_clock sample_hex sample_submission empty_world).2).2
    !! submitted_id sample_hex
  = Some (Claim.mk (submitted_id sample_hex) sample_submission
            ClaimStatus.SUBMITTED (sample_clock 2) (sample_clock 3) None) /\
  dom (claims_db
         (submit_claim sample_clock "3f2a9c1bffffffffffffffffffffffff"
            sample_submission
            (submit_claim sample_clock sample_hex sample_submission
               empty_world).2).2)
  = dom (claims_db
           (submit_claim sample_clock sample_hex sample_submission empty_world).2) /\
  size (claims_db
          (submit_claim sample_clock "3f2a9c1bffffffffffffffffffffffff"
             sample_submission
             (submit_claim sample_clock sample_hex sample_submission
                empty_world).2).2)
  = size (claims_db
            (submit_claim sample_clock sample_hex sample_submission
               empty_world).2).
Proof.
  apply (colliding_submission_replaces sample_clock sample_hex
           "3f2a9c1bffffffffffffffffffffffff"
           sample_submission sample_submission empty_world).
  reflexivity.
Defined.

